(** * Observability notebook for Agents for Amazon Bedrock

    A shallow embedding of the Python code cells of
    [2. Example-Observability-for-Agent-Applications.ipynb]:
    the [invoke_agent] function that drives the agent runtime API and
    folds its event stream, the two feedback functions, and the
    [bedrock_logs.watch] decorator that wraps all three.

    Python objects are modelled by [pyval]; dictionaries are [gmap]s with
    string keys; [time.time()] reads a clock kept in the [world]; Python
    exceptions are the [Raise] outcome of a computation in the monad [M],
    in which state changes survive a raise. *)

From Stdlib Require Import ZArith NArith List Sorted Floats.PrimFloat.
From stdpp Require Import gmap strings list fin_maps.

Set Warnings "-register-all".
Open Scope string_scope.
Open Scope list_scope.

(** ** Python values *)

(** A [str] is a sequence of Unicode code points, a [bytes] a sequence of
    octets, a [float] an IEEE 754 binary64. *)
Inductive pyval :=
| PNone
| PBool (b : bool)
| PInt (z : Z)
| PFloat (f : float)
| PStr (s : list N)
| PBytes (b : list Byte.byte)
| PDict (d : gmap string pyval)
| PList (l : list pyval)
| PTuple (l : list pyval).

(** The exceptions the cells can meet, all of them subclasses of
    [Exception].  [Exception msg args] is [Exception(msg, *args)];
    [ServiceError] stands for what botocore raises ([ClientError],
    [EventStreamError], ...). *)
Inductive exn :=
| Exception (msg : string) (args : list pyval)
| KeyError (key : string)
| TypeError (why : string)
| AttributeError (attr : string)
| ValueError (why : string)
| UnicodeDecodeError (data : list Byte.byte)
| ServiceError (code : string) (detail : pyval).

Inductive outcome (A : Type) :=
| Return (a : A)
| Raise (x : exn).
Arguments Return {A} a.
Arguments Raise {A} x.

(** ** The agent runtime API *)

(** [agentResponse['completion']] is an iterator: each [next] either
    yields an event (a dict), stops, or raises. *)
Inductive event_stream :=
| StopIteration
| Yield (event : gmap string pyval) (rest : event_stream)
| Broken (x : exn).

(** The events of a stream that ends normally. *)
Fixpoint events (l : list (gmap string pyval)) : event_stream :=
  match l with
  | [] => StopIteration
  | e :: l' => Yield e (events l')
  end.

(** Events [pre], then the stream [s]. *)
Fixpoint yields (pre : list (gmap string pyval)) (s : event_stream) : event_stream :=
  match pre with
  | [] => s
  | e :: pre' => Yield e (yields pre' s)
  end.

(** Keyword arguments of [bedrock_agent_runtime_client.invoke_agent]. *)
Record request := {
  inputText : pyval;
  agentId : pyval;
  agentAliasId : pyval;
  sessionId : pyval;
  enableTrace : pyval;
  endSession : pyval
}.

(** Its response: the event stream, the metadata dict, and the remaining
    top-level keys ([contentType], [sessionId], ...). *)
Record agent_response := {
  completion : event_stream;
  ResponseMetadata : gmap string pyval;
  fields : gmap string pyval
}.

(** ** Records written by the decorator *)

(** Modelled from the spec: the Invocation Record of the data model, as
    the decorator of the [observability] module (not among the source
    files) writes it; a field that was not captured is [None]. *)
Record log_record := {
  run_id : list N;
  observation_id : list N;
  call_type : string;
  captured_input : option pyval;
  captured_output : option pyval;
  timestamp : float
}.

(** ** The world the notebook runs in *)

(** The clock behind [time.time()], the agent runtime service, and, for
    the decorator, the identifier generator and the sink it writes to. *)
Record world := {
  clock : nat -> float;          (* successive readings of the clock *)
  ticks : nat;                   (* readings taken so far *)
  agent_runtime : request -> outcome agent_response;
  uuid4 : nat -> list N;         (* the identifier generator *)
  minted : nat;                  (* identifiers drawn so far *)
  sink : list log_record         (* the append-only log destination *)
}.

Definition M (A : Type) : Type := world -> outcome A * world.

Definition ret {A} (a : A) : M A := fun w => (Return a, w).

Definition raise {A} (x : exn) : M A := fun w => (Raise x, w).

Definition bind {A B} (c : M A) (k : A -> M B) : M B :=
  fun w =>
    match c w with
    | (Return a, w') => k a w'
    | (Raise x, w') => (Raise x, w')
    end.

(** [try: c  except Exception as e: h e] *)
Definition try_except {A} (c : M A) (h : exn -> M A) : M A :=
  fun w =>
    match c w with
    | (Return a, w') => (Return a, w')
    | (Raise e, w') => h e w'
    end.

Definition lift {A} (o : outcome A) : M A := fun w => (o, w).

Declare Scope py_scope.
Delimit Scope py_scope with py.
Notation "x <- c ;; k" := (bind c (fun x => k))
  (at level 100, c at next level, right associativity) : py_scope.
Open Scope py_scope.

(** One more reading of the clock has been taken. *)
Definition tick (w : world) : world :=
  {| clock := clock w; ticks := S (ticks w);
     agent_runtime := agent_runtime w;
     uuid4 := uuid4 w; minted := minted w; sink := sink w |}.

(** [time.time()] *)
Definition time_time : M float :=
  fun w => (Return (clock w (ticks w)), tick w).

(** [bedrock_agent_runtime_client.invoke_agent(...)].  The world holds
    what the service answers to the call at hand; the state the service
    keeps on its own side (the memory of a session, a session that was
    ended) is not part of it. *)
Definition client_invoke_agent (rq : request) : M agent_response :=
  fun w => (agent_runtime w rq, w).

(** ** Python primitives used by the cells *)

(** [k in d] *)
Definition contains (k : string) (d : gmap string pyval) : bool :=
  match d !! k with
  | Some _ => true
  | None => false
  end.

(** [v[k]] for a string key. *)
Definition subscript (v : pyval) (k : string) : outcome pyval :=
  match v with
  | PDict d =>
      match d !! k with
      | Some x => Return x
      | None => Raise (KeyError k)
      end
  | _ => Raise (TypeError "subscript")
  end.

(** [v[k] = x] for a string key.  The dict is updated in place; the
    events of a stream are parsed one by one into dicts of their own, so
    no two of them share a trace. *)
Definition setitem (v : pyval) (k : string) (x : pyval) : outcome pyval :=
  match v with
  | PDict d => Return (PDict (<[k := x]> d))
  | _ => Raise (TypeError "item assignment")
  end.

Definition continuation (n : N) : bool := ((128 <=? n) && (n <=? 191))%N.

(** Strict UTF-8 decoding, as [bytes.decode('utf8')] does it: shortest
    form only, no surrogates, nothing above U+10FFFF. *)
Fixpoint utf8_decode (bs : list Byte.byte) : option (list N) :=
  match bs with
  | [] => Some []
  | b0 :: r0 =>
      let n0 := Byte.to_N b0 in
      if (n0 <? 128)%N then cons n0 <$> utf8_decode r0
      else if (n0 <? 194)%N then None
      else if (n0 <? 224)%N then
        match r0 with
        | b1 :: r1 =>
            let n1 := Byte.to_N b1 in
            if continuation n1
            then cons ((n0 - 192) * 64 + (n1 - 128))%N <$> utf8_decode r1
            else None
        | _ => None
        end
      else if (n0 <? 240)%N then
        match r0 with
        | b1 :: b2 :: r2 =>
            let n1 := Byte.to_N b1 in
            let n2 := Byte.to_N b2 in
            let cp := ((n0 - 224) * 4096 + (n1 - 128) * 64 + (n2 - 128))%N in
            if continuation n1 && continuation n2
               && (2048 <=? cp)%N && negb ((55296 <=? cp) && (cp <=? 57343))%N
            then cons cp <$> utf8_decode r2
            else None
        | _ => None
        end
      else if (n0 <? 245)%N then
        match r0 with
        | b1 :: b2 :: b3 :: r3 =>
            let n1 := Byte.to_N b1 in
            let n2 := Byte.to_N b2 in
            let n3 := Byte.to_N b3 in
            let cp := ((n0 - 240) * 262144 + (n1 - 128) * 4096
                       + (n2 - 128) * 64 + (n3 - 128))%N in
            if continuation n1 && continuation n2 && continuation n3
               && (65536 <=? cp)%N && (cp <=? 1114111)%N
            then cons cp <$> utf8_decode r3
            else None
        | _ => None
        end
      else None
  end.

(** [data.decode('utf8')] *)
Definition decode (data : pyval) : outcome (list N) :=
  match data with
  | PBytes bs =>
      match utf8_decode bs with
      | Some s => Return s
      | None => Raise (UnicodeDecodeError bs)
      end
  | _ => Raise (AttributeError "decode")
  end.

(** ** [invoke_agent] *)

(** The local variables of [invoke_agent]. *)
Record frame := {
  start_time : float;
  time_to_first_token : option float;
  time_at_first_token : option float;
  agentResponse : agent_response;
  agent_answer : option (list N);
  end_event_received : bool;
  trace_data : list pyval
}.

(** Advancing the iterator held in [agentResponse['completion']]. *)
Definition advance (rest : event_stream) (f : frame) : frame :=
  {| start_time := start_time f;
     time_to_first_token := time_to_first_token f;
     time_at_first_token := time_at_first_token f;
     agentResponse :=
       {| completion := rest;
          ResponseMetadata := ResponseMetadata (agentResponse f);
          fields := fields (agentResponse f) |};
     agent_answer := agent_answer f;
     end_event_received := end_event_received f;
     trace_data := trace_data f |}.

(** [agentResponse['ResponseMetadata'][k] = v] *)
Definition set_metadata (k : string) (v : pyval) (f : frame) : frame :=
  {| start_time := start_time f;
     time_to_first_token := time_to_first_token f;
     time_at_first_token := time_at_first_token f;
     agentResponse :=
       {| completion := completion (agentResponse f);
          ResponseMetadata := <[k := v]> (ResponseMetadata (agentResponse f));
          fields := fields (agentResponse f) |};
     agent_answer := agent_answer f;
     end_event_received := end_event_received f;
     trace_data := trace_data f |}.

(** The [if time_to_first_token is None:] block. *)
Definition first_token (f : frame) : M frame :=
  match time_to_first_token f with
  | None =>
      now <- time_time ;;
      ret {| start_time := start_time f;
             time_to_first_token := Some (now - start_time f)%float;
             time_at_first_token := Some now;
             agentResponse := agentResponse f;
             agent_answer := agent_answer f;
             end_event_received := end_event_received f;
             trace_data := trace_data f |}
  | Some _ => ret f
  end.

(** The body of [for event in event_stream:]. *)
Definition loop_body (event : gmap string pyval) (f : frame) : M frame :=
  if contains "chunk" event then
    f1 <- first_token f ;;
    chunk <- lift (subscript (PDict event) "chunk") ;;
    data <- lift (subscript chunk "bytes") ;;
    answer <- lift (decode data) ;;
    ret {| start_time := start_time f1;
           time_to_first_token := time_to_first_token f1;
           time_at_first_token := time_at_first_token f1;
           agentResponse := agentResponse f1;
           agent_answer := Some answer;
           end_event_received := true;
           trace_data := trace_data f1 |}
  else if contains "trace" event then
    trace <- lift (subscript (PDict event) "trace") ;;
    now <- time_time ;;
    trace' <- lift (setitem trace "start_trace_time" (PFloat now)) ;;
    ret {| start_time := start_time f;
           time_to_first_token := time_to_first_token f;
           time_at_first_token := time_at_first_token f;
           agentResponse := agentResponse f;
           agent_answer := agent_answer f;
           end_event_received := end_event_received f;
           trace_data := trace_data f ++ [trace'] |}
  else
    raise (Exception "Unexpected event." [PDict event]).

(** The [for] loop: it has no [break], so it ends when the iterator
    stops or something raises. *)
Fixpoint for_event (s : event_stream) (f : frame) : M frame :=
  match s with
  | StopIteration => ret (advance StopIteration f)
  | Broken x => raise x
  | Yield event rest =>
      f' <- loop_body event (advance rest f) ;;
      for_event rest f'
  end.

Definition float_or_none (o : option float) : pyval :=
  match o with
  | Some t => PFloat t
  | None => PNone
  end.

Definition str_or_none (o : option (list N)) : pyval :=
  match o with
  | Some s => PStr s
  | None => PNone
  end.

(** [now - time_at_first_token] *)
Definition since (now : float) (o : option float) : outcome float :=
  match o with
  | Some t => Return (now - t)%float
  | None => Raise (TypeError "float - NoneType")
  end.

(** The [try:] block. *)
Definition invoke_agent_try
    (query_to_agent agent_id agent_alias_id session_id enableTrace endSession : pyval)
    : M frame :=
  start_time <- time_time ;;
  agentResponse <- client_invoke_agent
    {| inputText := query_to_agent; agentId := agent_id;
       agentAliasId := agent_alias_id; sessionId := session_id;
       enableTrace := enableTrace; endSession := endSession |} ;;
  f <- for_event (completion agentResponse)
         {| start_time := start_time;
            time_to_first_token := None;
            time_at_first_token := None;
            agentResponse := agentResponse;
            agent_answer := None;
            end_event_received := false;
            trace_data := [] |} ;;
  if negb (end_event_received f) then
    raise (Exception "End event not received." [])
  else
    let f := set_metadata "time_to_first_token"
               (float_or_none (time_to_first_token f)) f in
    now <- time_time ;;
    last_token <- lift (since now (time_at_first_token f)) ;;
    ret (set_metadata "time_to_last_token" (PFloat last_token) f).

Definition invoke_agent
    (query_to_agent agent_id agent_alias_id session_id enableTrace endSession
     agent_config : pyval) : M pyval :=
  f <- try_except
         (invoke_agent_try query_to_agent agent_id agent_alias_id session_id
            enableTrace endSession)
         (fun e => raise e) ;;
  ret (PTuple [PDict (ResponseMetadata (agentResponse f));
               str_or_none (agent_answer f);
               PList (trace_data f)]).

(** A call with positional arguments only, as the notebook makes it;
    [agent_config] defaults to [None]. *)
Definition callable : Type := list pyval -> M pyval.

Definition invoke_agent_call : callable :=
  fun args =>
    match args with
    | [q; a; al; s; et; es] => invoke_agent q a al s et es PNone
    | [q; a; al; s; et; es; cfg] => invoke_agent q a al s et es cfg
    | _ => raise (TypeError "invoke_agent() arguments")
    end.

(** ** The feedback functions: [def f(feedback): pass] *)

Definition observation_level_feedback : callable :=
  fun args =>
    match args with
    | [feedback] => ret PNone
    | _ => raise (TypeError "observation_level_feedback() arguments")
    end.

Definition session_level_feedback : callable :=
  fun args =>
    match args with
    | [feedback] => ret PNone
    | _ => raise (TypeError "session_level_feedback() arguments")
    end.

(** ** The [watch] decorator *)

(** A string literal as a [str]. *)
Definition str (s : string) : list N :=
  Ascii.N_of_ascii <$> String.list_ascii_of_string s.

(** Modelled from the spec: drawing a new identifier ("opaque unique
    token") from the generator, for the decorator below. *)
Definition mint : M (list N) :=
  fun w =>
    (Return (uuid4 w (minted w)),
     {| clock := clock w; ticks := ticks w;
        agent_runtime := agent_runtime w;
        uuid4 := uuid4 w; minted := S (minted w); sink := sink w |}).

(** Modelled from the spec: appending a record to the sink, the
    append-only log destination. *)
Definition emit (r : log_record) : M unit :=
  fun w =>
    (Return tt,
     {| clock := clock w; ticks := ticks w;
        agent_runtime := agent_runtime w;
        uuid4 := uuid4 w; minted := minted w; sink := sink w ++ [r] |}).

Definition value_or_none (o : option pyval) : pyval :=
  match o with
  | Some v => v
  | None => PNone
  end.

(** Modelled from the spec: a record as the dict handed back to the
    caller (the second value the notebook unpacks, [log]). *)
Definition log_to_py (r : log_record) : pyval :=
  PDict (<["run_id" := PStr (run_id r)]>
        (<["observation_id" := PStr (observation_id r)]>
        (<["call_type" := PStr (str (call_type r))]>
        (<["captured_input" := value_or_none (captured_input r)]>
        (<["captured_output" := value_or_none (captured_output r)]>
        (<["timestamp" := PFloat (timestamp r)]> ∅)))))).

(** Modelled from the spec: [BedrockLogs.watch], the decorator of the
    [observability] module that the notebook imports; its source is not
    in the repository files at hand.  Following the Invocation Wrapper
    contract: (1) only the first positional argument is read as loggable
    input, (2) the original callable is executed, (3) on success one
    Invocation Record (run_id, observation_id, call_type, captured_input,
    captured_output, timestamp) is appended to the sink, (4) the result is
    returned together with the newly minted run_id and observation_id; an
    exception of the callable propagates.  The shape of the returned tuple
    is the one the notebook unpacks:
    [results, log, run_id, observation_id = invoke_agent(...)], for a
    [BedrockLogs] built with [feedback_variables=True]. *)
Definition watch (capture_input capture_output : bool) (call_type : string)
    (func : callable) : callable :=
  fun args =>
    let input_log := if capture_input then head args else None in
    result <- func args ;;
    run_id <- mint ;;
    observation_id <- mint ;;
    now <- time_time ;;
    let log :=
      {| run_id := run_id; observation_id := observation_id;
         call_type := call_type;
         captured_input := input_log;
         captured_output := if capture_output then Some result else None;
         timestamp := now |} in
    _ <- emit log ;;
    ret (PTuple [result; log_to_py log; PStr run_id; PStr observation_id]).

(** The decorated names of the notebook; [capture_input] and
    [capture_output] are left at their default [True]. *)
Definition invoke_agent_watched : callable :=
  watch true true "agent-in-prod" invoke_agent_call.

Definition observation_level_feedback_watched : callable :=
  watch true true "observation-feedback" observation_level_feedback.

Definition session_level_feedback_watched : callable :=
  watch true true "session-feedback" session_level_feedback.

(** ** The cells that call them *)

(** [a, b, c, d = v], for the tuples the decorated functions return. *)
Definition unpack4 (v : pyval) : outcome (pyval * pyval * pyval * pyval) :=
  match v with
  | PTuple [a; b; c; d] => Return (a, b, c, d)
  | PTuple _ => Raise (ValueError "unpack")
  | _ => Raise (TypeError "unpack")
  end.

(** [results, log, run_id, observation_id = invoke_agent(QUESTION, ...)];
    the constants come from [config.py]. *)
Definition cell_invoke_agent
    (QUESTION AGENT_ID AGENT_ALIAS_ID SESSION_ID ENABLE_TRACE END_SESSION : pyval)
    : M (pyval * pyval * pyval * pyval) :=
  t <- invoke_agent_watched
         [QUESTION; AGENT_ID; AGENT_ALIAS_ID; SESSION_ID; ENABLE_TRACE; END_SESSION] ;;
  lift (unpack4 t).

Definition observation_feedback_from_front_end (run_id observation_id : pyval)
    : pyval :=
  PDict (<["user_id" := PStr (str "User-1")]>
        (<["f_run_id" := run_id]>
        (<["f_observation_id" := observation_id]>
        (<["actual_feedback" := PStr (str "Thumbs-up")]> ∅)))).

Definition session_feedback_from_front_end (run_id : pyval) : pyval :=
  PDict (<["user_id" := PStr (str "User-1")]>
        (<["f_run_id" := run_id]>
        (<["actual_feedback" :=
             PStr (str "Amazing - this is fast and an awesome way to help the customers!")]>
           ∅))).

(** ** Sample data *)

Definition sample_clock (n : nat) : float :=
  Nat.iter n (fun t => (t + 0.25)%float) 1000%float.

Definition sample_uuid4 (n : nat) : list N := str "id-" ++ [N.of_nat n].

Definition sample_world (answer : outcome agent_response) : world :=
  {| clock := sample_clock; ticks := 0;
     agent_runtime := fun _ => answer;
     uuid4 := sample_uuid4; minted := 0; sink := [] |}.

Definition chunk_event (payload : string) : gmap string pyval :=
  {[ "chunk" := PDict {[ "bytes" := PBytes (String.list_byte_of_string payload) ]} ]}.

Definition trace_event (session : string) : gmap string pyval :=
  {[ "trace" := PDict {[ "sessionId" := PStr (str session) ]} ]}.

Definition ping_event : gmap string pyval :=
  {[ "ping" := PNone ]}.

Definition sample_response (s : event_stream) : agent_response :=
  {| completion := s;
     ResponseMetadata := {[ "HTTPStatusCode" := PInt 200 ]};
     fields := {[ "contentType" := PStr (str "text/plain") ]} |}.

Definition Q : pyval := PStr (str "What is the order status?").
Definition K : pyval := PStr (str "k").

Definition run_sample (s : event_stream) : outcome pyval :=
  fst (invoke_agent Q K K K (PBool true) (PBool false) PNone
         (sample_world (Return (sample_response s)))).

(** A stream of two chunk events around a trace event, and a service
    that answers with it. *)
Definition hello_events : list (gmap string pyval) :=
  [chunk_event "Hel"; trace_event "s"; chunk_event "lo"].

Definition hello_world : world :=
  sample_world (Return (sample_response (events hello_events))).

(** A service error. *)
Definition throttled : exn := ServiceError "ThrottlingException" PNone.

(** The same question put to another agent, alias and session. *)
Definition other_agent : list pyval :=
  [PStr (str "agent-2"); PStr (str "alias-2"); PStr (str "session-2");
   PBool false; PBool true].

(** The value a call returned. *)
Definition returned (o : outcome pyval) : pyval :=
  match o with
  | Return v => v
  | Raise _ => PNone
  end.

(** Events the service should not send. *)
Definition chunk_without_bytes : gmap string pyval :=
  {[ "chunk" := PDict {[ "attribution" := PNone ]} ]}.

Definition chunk_of_bytes (bs : list Byte.byte) : gmap string pyval :=
  {[ "chunk" := PDict {[ "bytes" := PBytes bs ]} ]}.

Definition trace_of (t : pyval) : gmap string pyval :=
  {[ "trace" := t ]}.

(** ** Vocabulary of the statements *)

(** The loop tells events apart by their keys: a chunk event has the key
    ['chunk'], a trace event has ['trace'] and not ['chunk']. *)
Definition is_chunk (e : gmap string pyval) : bool := contains "chunk" e.

Definition is_trace (e : gmap string pyval) : bool :=
  negb (contains "chunk" e) && contains "trace" e.

(** A chunk event as the service sends it: a dict under ['chunk'] whose
    ['bytes'] are valid UTF-8. *)
Definition chunk_ok (e : gmap string pyval) : Prop :=
  exists c bs s,
    e !! "chunk" = Some (PDict c) /\ c !! "bytes" = Some (PBytes bs) /\
    utf8_decode bs = Some s.

(** A trace event as the service sends it: a dict under ['trace']. *)
Definition trace_ok (e : gmap string pyval) : Prop :=
  is_chunk e = false /\ exists d, e !! "trace" = Some (PDict d).

Definition handled (e : gmap string pyval) : Prop := chunk_ok e \/ trace_ok e.

(** [t] is the trace of event [e] with its [start_trace_time] filled in. *)
Definition stamped (e : gmap string pyval) (t : pyval) : Prop :=
  exists d now,
    e !! "trace" = Some (PDict d) /\
    t = PDict (<["start_trace_time" := PFloat now]> d).

Definition request_of (q a al s et es : pyval) : request :=
  {| inputText := q; agentId := a; agentAliasId := al; sessionId := s;
     enableTrace := et; endSession := es |}.

(** The locals of [invoke_agent] when the loop starts. *)
Definition locals_at_loop (t : float) (r : agent_response) : frame :=
  {| start_time := t;
     time_to_first_token := None;
     time_at_first_token := None;
     agentResponse := r;
     agent_answer := None;
     end_event_received := false;
     trace_data := [] |}.

(** The loop of [invoke_agent], run on the stream of the response [r],
    comes to the end of the stream: no turn raises and the iterator stops. *)
Definition runs_off_the_end (w : world) (r : agent_response) : Prop :=
  exists f w1,
    for_event (completion r) (locals_at_loop (clock w (ticks w)) r) (tick w)
    = (Return f, w1).

(** The worlds [w] and [w'] differ at most in the number of clock
    readings taken, which has not gone down. *)
Definition same_but_clock_reads (w w' : world) : Prop :=
  clock w' = clock w /\ agent_runtime w' = agent_runtime w /\
  uuid4 w' = uuid4 w /\ minted w' = minted w /\ sink w' = sink w /\
  ticks w <= ticks w'.

(** [t] is a trace whose [start_trace_time] is reading number [i] of the
    clock [clk]. *)
Definition stamped_at (clk : nat -> float) (t : pyval) (i : nat) : Prop :=
  exists d, t = PDict d /\ d !! "start_trace_time" = Some (PFloat (clk i)).

(** A Unicode scalar value: a code point that is no surrogate. *)
Definition scalar_value (c : N) : Prop :=
  (c < 1114112)%N /\ ~ (55296 <= c <= 57343)%N.

(** ** Sanity checks on the sample data *)

Example utf8_euro : utf8_decode [Byte.xe2; Byte.x82; Byte.xac] = Some [8364%N].
Proof. reflexivity. Qed.

Example utf8_overlong : utf8_decode [Byte.xc0; Byte.x80] = None.
Proof. reflexivity. Qed.

Example utf8_surrogate : utf8_decode [Byte.xed; Byte.xa0; Byte.x80] = None.
Proof. reflexivity. Qed.

Example utf8_emoji :
  utf8_decode [Byte.xf0; Byte.x9f; Byte.x98; Byte.x80] = Some [128512%N].
Proof. reflexivity. Qed.

Example utf8_truncated : utf8_decode [Byte.xe2; Byte.x82] = None.
Proof. reflexivity. Qed.

Example run_two_chunks :
  run_sample (events [trace_event "s"; chunk_event "Hel"; trace_event "t";
                      chunk_event "lo"])
  = Return (PTuple
      [PDict (<["time_to_last_token" := PFloat 0.5%float]>
             (<["time_to_first_token" := PFloat 0.5%float]>
                {[ "HTTPStatusCode" := PInt 200 ]}));
       PStr (str "lo");
       PList [PDict (<["start_trace_time" := PFloat 1000.25%float]>
                       {[ "sessionId" := PStr (str "s") ]});
              PDict (<["start_trace_time" := PFloat 1000.75%float]>
                       {[ "sessionId" := PStr (str "t") ]})]]).
Proof. vm_compute. reflexivity. Qed.

Example run_only_trace :
  run_sample (events [trace_event "s"])
  = Raise (Exception "End event not received." []).
Proof. reflexivity. Qed.

Example run_chunk_then_ping :
  run_sample (events [chunk_event "a"; ping_event])
  = Raise (Exception "Unexpected event." [PDict ping_event]).
Proof. reflexivity. Qed.

Example run_broken_stream :
  run_sample (yields [chunk_event "a"] (Broken (ServiceError "throttled" PNone)))
  = Raise (ServiceError "throttled" PNone).
Proof. reflexivity. Qed.

(** * Properties *)

(** ** Decoding *)

(** ASCII bytes decode to themselves. *)
Lemma utf8_decode_ascii bs :
  Forall (fun b => (Byte.to_N b < 128)%N) bs ->
  utf8_decode bs = Some (Byte.to_N <$> bs).
Proof.
  induction 1 as [|b bs Hb _ IH]; [reflexivity|].
  cbn [utf8_decode]. apply N.ltb_lt in Hb. rewrite Hb, IH. reflexivity.
Qed.

(** ** One turn of the loop *)

Ltac run_py :=
  unfold bind, ret, raise, lift, try_except, time_time, client_invoke_agent in *;
  simpl in *.

Lemma first_token_run f w :
  first_token f w =
  match time_to_first_token f with
  | None =>
      (Return {| start_time := start_time f;
                 time_to_first_token := Some (clock w (ticks w) - start_time f)%float;
                 time_at_first_token := Some (clock w (ticks w));
                 agentResponse := agentResponse f;
                 agent_answer := agent_answer f;
                 end_event_received := end_event_received f;
                 trace_data := trace_data f |}, tick w)
  | Some _ => (Return f, w)
  end.
Proof. unfold first_token. destruct (time_to_first_token f); reflexivity. Qed.

(** A turn on a chunk event that does not raise: the payload decoded, and
    the first-token block run before it. *)
Lemma loop_body_chunk e f w f' w' :
  contains "chunk" e = true ->
  loop_body e f w = (Return f', w') ->
  exists c bs s f1,
    e !! "chunk" = Some (PDict c) /\ c !! "bytes" = Some (PBytes bs) /\
    utf8_decode bs = Some s /\
    first_token f w = (Return f1, w') /\
    f' = {| start_time := start_time f1;
            time_to_first_token := time_to_first_token f1;
            time_at_first_token := time_at_first_token f1;
            agentResponse := agentResponse f1;
            agent_answer := Some s;
            end_event_received := true;
            trace_data := trace_data f1 |}.
Proof.
  intros Hc. unfold loop_body. rewrite Hc. unfold bind at 1.
  destruct (first_token f w) as [[f1|x] w1]; [|discriminate].
  run_py. destruct (e !! "chunk") as [[]|]; simpl; try discriminate.
  destruct (d !! "bytes") as [[]|] eqn:Hb; simpl; try discriminate.
  destruct (utf8_decode b) as [s|] eqn:Hs; simpl; try discriminate.
  intros [= <- <-]. exists d, b, s, f1. auto 6.
Qed.

(** A turn on a trace event that does not raise: one reading of the
    clock, stored in the trace, and the trace appended. *)
Lemma loop_body_trace e f w f' w' :
  contains "chunk" e = false ->
  loop_body e f w = (Return f', w') ->
  exists d,
    e !! "trace" = Some (PDict d) /\ w' = tick w /\
    f' = {| start_time := start_time f;
            time_to_first_token := time_to_first_token f;
            time_at_first_token := time_at_first_token f;
            agentResponse := agentResponse f;
            agent_answer := agent_answer f;
            end_event_received := end_event_received f;
            trace_data :=
              trace_data f ++
              [PDict (<["start_trace_time" := PFloat (clock w (ticks w))]> d)] |}.
Proof.
  intros Hc. unfold loop_body, contains in *. rewrite Hc.
  destruct (e !! "trace") as [t|] eqn:Ht; run_py; rewrite ?Ht; simpl;
    [|discriminate].
  destruct t; simpl; try discriminate.
  intros [= <- <-]. eauto.
Qed.

(** An event that is neither stops the loop. *)
Lemma loop_body_unexpected e f w :
  contains "chunk" e = false -> contains "trace" e = false ->
  loop_body e f w = (Raise (Exception "Unexpected event." [PDict e]), w).
Proof. intros Hc Ht. unfold loop_body. rewrite Hc, Ht. reflexivity. Qed.

(** ** The whole loop *)

(** Only a stream that ends normally lets the loop finish. *)
Lemma for_event_finite s : forall f w f' w',
  for_event s f w = (Return f', w') -> exists l, s = events l.
Proof.
  induction s as [|e rest IH|x]; intros f w f' w' H; simpl in H.
  - exists []. reflexivity.
  - unfold bind in H.
    destruct (loop_body e (advance rest f) w) as [[f1|x] w1]; [|discriminate].
    destruct (IH _ _ _ _ H) as [l ->]. exists (e :: l). reflexivity.
  - discriminate.
Qed.

(** What a turn leaves alone. *)
Lemma loop_body_frame e f w f' w' :
  loop_body e f w = (Return f', w') ->
  start_time f' = start_time f /\ agentResponse f' = agentResponse f /\
  clock w' = clock w /\ agent_runtime w' = agent_runtime w /\
  uuid4 w' = uuid4 w /\ minted w' = minted w /\ sink w' = sink w.
Proof.
  intros H. destruct (contains "chunk" e) eqn:Hc.
  - destruct (loop_body_chunk _ _ _ _ _ Hc H) as (c & bs & s & f1 & _ & _ & _ & H1 & ->).
    rewrite first_token_run in H1.
    destruct (time_to_first_token f); injection H1 as <- <-; simpl; auto 10.
  - destruct (loop_body_trace _ _ _ _ _ Hc H) as (d & _ & -> & ->); simpl; auto 10.
Qed.

(** When the loop finishes, the iterator is exhausted and nothing else of
    the response has changed. *)
Lemma for_event_frame l : forall f w f' w',
  for_event (events l) f w = (Return f', w') ->
  start_time f' = start_time f /\
  agentResponse f' = agentResponse (advance StopIteration f) /\
  clock w' = clock w /\ agent_runtime w' = agent_runtime w /\
  uuid4 w' = uuid4 w /\ minted w' = minted w /\ sink w' = sink w.
Proof.
  induction l as [|e l IH]; intros f w f' w' H; simpl in H.
  - injection H as <- <-. simpl. auto 10.
  - unfold bind in H.
    destruct (loop_body e (advance (events l) f) w) as [[f1|x] w1] eqn:H1;
      [|discriminate].
    apply loop_body_frame in H1 as (Hs & Hr & Hk & Ha & Hu & Hm & Hi).
    apply IH in H as (Hs' & Hr' & Hk' & Ha' & Hu' & Hm' & Hi').
    rewrite Hs', Hs, Hr', Hk', Hk, Ha', Ha, Hu', Hu, Hm', Hm, Hi', Hi.
    simpl. rewrite Hr. simpl. auto 10.
Qed.


Lemma for_event_traces l : forall f w f' w',
  for_event (events l) f w = (Return f', w') ->
  exists ts : list pyval,
    trace_data f' = (trace_data f ++ ts)%list /\
    Forall2 stamped (List.filter is_trace l) ts.
Proof.
  induction l as [|e l IH]; intros f w f' w' H; simpl in H.
  - injection H as <- <-. exists []. simpl. rewrite app_nil_r. auto.
  - unfold bind in H.
    destruct (loop_body e (advance (events l) f) w) as [[f1|x] w1] eqn:H1;
      [|discriminate].
    apply IH in H as (ts & Hts & Hall). simpl. unfold is_trace at 1.
    destruct (contains "chunk" e) eqn:Hc; simpl.
    + destruct (loop_body_chunk _ _ _ _ _ Hc H1)
        as (c & bs & s & f2 & _ & _ & _ & H2 & ->).
      rewrite first_token_run in H2. simpl in H2.
      exists ts. split; [|exact Hall]. rewrite Hts.
      destruct (time_to_first_token f); injection H2 as <- _; reflexivity.
    + destruct (loop_body_trace _ _ _ _ _ Hc H1) as (d & Hd & -> & ->).
      unfold contains at 1. rewrite Hd.
      eexists. split.
      * rewrite Hts. simpl. rewrite <- app_assoc. reflexivity.
      * constructor; [|exact Hall]. exists d. eauto.
Qed.

Lemma for_event_answer l : forall f w f' w',
  for_event (events l) f w = (Return f', w') ->
  (Forall (fun e => is_chunk e = false) l /\
   agent_answer f' = agent_answer f /\
   end_event_received f' = end_event_received f)
  \/
  (exists l1 e l2 c bs s,
     l = l1 ++ e :: l2 /\ Forall (fun e' => is_chunk e' = false) l2 /\
     e !! "chunk" = Some (PDict c) /\ c !! "bytes" = Some (PBytes bs) /\
     utf8_decode bs = Some s /\
     agent_answer f' = Some s /\ end_event_received f' = true).
Proof.
  induction l as [|e l IH]; intros f w f' w' H; simpl in H.
  - injection H as <- <-. left. simpl. auto.
  - unfold bind in H.
    destruct (loop_body e (advance (events l) f) w) as [[f1|x] w1] eqn:H1;
      [|discriminate].
    apply IH in H as [(Hno & Ha & He)|(l1 & e' & l2 & c & bs & s & -> & Hrest)].
    + destruct (contains "chunk" e) eqn:Hc.
      * destruct (loop_body_chunk _ _ _ _ _ Hc H1)
          as (c & bs & s & f2 & Hk & Hb & Hs & _ & ->).
        right. exists [], e, l, c, bs, s. simpl in *. auto 10.
      * destruct (loop_body_trace _ _ _ _ _ Hc H1) as (d & _ & -> & ->).
        left. simpl in *. auto.
    + right. exists (e :: l1), e', l2, c, bs, s. simpl. tauto.
Qed.

Lemma for_event_token_kept l : forall f w f' w' t,
  time_to_first_token f = Some t ->
  for_event (events l) f w = (Return f', w') ->
  time_to_first_token f' = time_to_first_token f /\
  time_at_first_token f' = time_at_first_token f.
Proof.
  induction l as [|e l IH]; intros f w f' w' t Ht H; simpl in H.
  - injection H as <- <-. simpl. auto.
  - unfold bind in H.
    destruct (loop_body e (advance (events l) f) w) as [[f1|x] w1] eqn:H1;
      [|discriminate].
    assert (time_to_first_token f1 = time_to_first_token f /\
            time_at_first_token f1 = time_at_first_token f) as [E1 E2].
    { destruct (contains "chunk" e) eqn:Hc.
      - destruct (loop_body_chunk _ _ _ _ _ Hc H1)
          as (c & bs & s & f2 & _ & _ & _ & H2 & ->).
        rewrite first_token_run in H2. simpl in H2. rewrite Ht in H2.
        injection H2 as <- _. simpl. auto.
      - destruct (loop_body_trace _ _ _ _ _ Hc H1) as (d & _ & -> & ->).
        simpl. auto. }
    rewrite Ht in E1. destruct (IH _ _ _ _ _ E1 H) as [-> ->].
    rewrite E1, E2, Ht. auto.
Qed.

Lemma for_event_first_token l : forall f w f' w',
  time_to_first_token f = None ->
  for_event (events l) f w = (Return f', w') ->
  (Forall (fun e => is_chunk e = false) l /\
   time_to_first_token f' = None /\
   time_at_first_token f' = time_at_first_token f)
  \/
  (exists l1 e l2,
     l = l1 ++ e :: l2 /\ Forall (fun e' => is_chunk e' = false) l1 /\
     is_chunk e = true /\
     time_at_first_token f' = Some (clock w (ticks w + length l1)) /\
     time_to_first_token f' =
       Some (clock w (ticks w + length l1) - start_time f)%float).
Proof.
  induction l as [|e l IH]; intros f w f' w' Ht H; simpl in H.
  - injection H as <- <-. left. simpl. auto.
  - unfold bind in H.
    destruct (loop_body e (advance (events l) f) w) as [[f1|x] w1] eqn:H1;
      [|discriminate].
    destruct (contains "chunk" e) eqn:Hc.
    + destruct (loop_body_chunk _ _ _ _ _ Hc H1)
        as (c & bs & s & f2 & _ & _ & _ & H2 & ->).
      rewrite first_token_run in H2. simpl in H2. rewrite Ht in H2.
      injection H2 as <- <-.
      eapply for_event_token_kept in H as [E1 E2]; [|reflexivity].
      simpl in E1, E2. right. exists [], e, l. simpl.
      rewrite Nat.add_0_r. auto.
    + destruct (loop_body_trace _ _ _ _ _ Hc H1) as (d & _ & -> & ->).
      apply IH in H; [|exact Ht].
      destruct H as [(Hno & E1 & E2)|(l1 & e' & l2 & -> & Hno & Hc' & E1 & E2)].
      * left. simpl in *. auto.
      * right. exists (e :: l1), e', l2. simpl in *.
        rewrite <- Nat.add_succ_comm. auto.
Qed.

(** Every event met by a loop that finishes is a chunk or a trace event. *)
Lemma for_event_recognised l : forall f w f' w',
  for_event (events l) f w = (Return f', w') ->
  Forall (fun e => is_chunk e = true \/ is_trace e = true) l.
Proof.
  induction l as [|e l IH]; intros f w f' w' H; simpl in H; [constructor|].
  unfold bind in H.
  destruct (loop_body e (advance (events l) f) w) as [[f1|x] w1] eqn:H1;
    [|discriminate].
  constructor; [|eauto]. unfold is_trace, is_chunk.
  destruct (contains "chunk" e) eqn:Hc; [auto|right].
  destruct (loop_body_trace _ _ _ _ _ Hc H1) as (d & Hd & _).
  unfold contains. rewrite Hd. reflexivity.
Qed.

(** A well-formed event is handled without a raise. *)
Lemma loop_body_handled e f w :
  handled e -> exists f' w', loop_body e f w = (Return f', w').
Proof.
  intros [(c & bs & s & Hc & Hb & Hs)|(Hc & d & Hd)]; unfold loop_body.
  - unfold contains. rewrite Hc. unfold bind at 1. rewrite first_token_run.
    destruct (time_to_first_token f); run_py; rewrite Hc; simpl;
      rewrite Hb; simpl; rewrite Hs; simpl; eauto.
  - unfold is_chunk in Hc. rewrite Hc. unfold contains. rewrite Hd.
    run_py. rewrite Hd. simpl. eauto.
Qed.

(** After well-formed events, the loop meets what follows them. *)
Lemma for_event_reaches_unexpected pre e rest : forall f w,
  Forall handled pre ->
  contains "chunk" e = false -> contains "trace" e = false ->
  exists w',
    for_event (yields pre (Yield e rest)) f w
    = (Raise (Exception "Unexpected event." [PDict e]), w').
Proof.
  induction pre as [|e0 pre IH]; intros f w Hpre Hc Ht; simpl.
  - unfold bind. rewrite loop_body_unexpected by assumption. eauto.
  - inversion Hpre as [|? ? H0 Hpre']; subst.
    destruct (loop_body_handled e0 (advance (yields pre (Yield e rest)) f) w H0)
      as (f1 & w1 & H1).
    unfold bind. rewrite H1. apply IH; assumption.
Qed.

Lemma for_event_reaches_broken pre x : forall f w,
  Forall handled pre ->
  exists w', for_event (yields pre (Broken x)) f w = (Raise x, w').
Proof.
  induction pre as [|e0 pre IH]; intros f w Hpre; simpl.
  - unfold raise. eauto.
  - inversion Hpre as [|? ? H0 Hpre']; subst.
    destruct (loop_body_handled e0 (advance (yields pre (Broken x)) f) w H0)
      as (f1 & w1 & H1).
    unfold bind. rewrite H1. apply IH; assumption.
Qed.

Lemma for_event_total l : forall f w,
  Forall handled l -> exists f' w', for_event (events l) f w = (Return f', w').
Proof.
  induction l as [|e l IH]; intros f w Hl; simpl.
  - unfold ret. eauto.
  - inversion Hl as [|? ? H0 Hl']; subst.
    destruct (loop_body_handled e (advance (events l) f) w H0) as (f1 & w1 & H1).
    unfold bind. rewrite H1. apply IH; assumption.
Qed.

Lemma yields_events pre e rest l :
  yields pre (Yield e rest) = events l -> In e l.
Proof.
  revert l. induction pre as [|e0 pre IH]; intros [|e1 l] H; simpl in H;
    try discriminate.
  - injection H as -> _. left. reflexivity.
  - injection H as _ H. right. eauto.
Qed.

(** Streams with the same events are the same list of events. *)
Lemma events_inj l : forall l', events l = events l' -> l = l'.
Proof.
  induction l as [|e l IH]; intros [|e' l'] H; simpl in H; try discriminate.
  - reflexivity.
  - injection H as -> H. f_equal. auto.
Qed.

(** ** What stops the loop *)

(** A turn that does not raise was given a well-formed event. *)
Lemma loop_body_returns_handled e f w f' w' :
  loop_body e f w = (Return f', w') -> handled e.
Proof.
  intros H. destruct (contains "chunk" e) eqn:Hc.
  - destruct (loop_body_chunk _ _ _ _ _ Hc H) as (c & bs & s & _ & Hk & Hb & Hs & _).
    left. exists c, bs, s. auto.
  - destruct (loop_body_trace _ _ _ _ _ Hc H) as (d & Hd & _).
    right. split; [exact Hc|]. eauto.
Qed.

Lemma for_event_handled l : forall f w f' w',
  for_event (events l) f w = (Return f', w') -> Forall handled l.
Proof.
  induction l as [|e l IH]; intros f w f' w' H; simpl in H; [constructor|].
  unfold bind in H.
  destruct (loop_body e (advance (events l) f) w) as [[f1|x] w1] eqn:H1;
    [|discriminate].
  constructor; [eapply loop_body_returns_handled; eassumption|eauto].
Qed.

(** The loop stops at the first event whose turn raises. *)
Lemma for_event_stops pre e rest x :
  Forall handled pre ->
  (forall f w, exists w', loop_body e f w = (Raise x, w')) ->
  forall f w,
    exists w', for_event (yields pre (Yield e rest)) f w = (Raise x, w').
Proof.
  intros Hpre He. induction Hpre as [|e0 pre H0 _ IH]; intros f w; simpl.
  - unfold bind. destruct (He (advance rest f) w) as [w' ->]. eauto.
  - destruct (loop_body_handled e0 (advance (yields pre (Yield e rest)) f) w H0)
      as (f1 & w1 & H1).
    unfold bind. rewrite H1. apply IH.
Qed.

(** A chunk whose dict has no ['bytes']. *)
Lemma loop_body_missing_bytes e c f w :
  e !! "chunk" = Some (PDict c) -> c !! "bytes" = None ->
  exists w', loop_body e f w = (Raise (KeyError "bytes"), w').
Proof.
  intros Hc Hb. unfold loop_body, contains. rewrite Hc.
  unfold bind at 1. rewrite first_token_run.
  destruct (time_to_first_token f); run_py; rewrite Hc; simpl; rewrite Hb;
    simpl; eauto.
Qed.

(** A chunk whose bytes are not UTF-8. *)
Lemma loop_body_undecodable e c bs f w :
  e !! "chunk" = Some (PDict c) -> c !! "bytes" = Some (PBytes bs) ->
  utf8_decode bs = None ->
  exists w', loop_body e f w = (Raise (UnicodeDecodeError bs), w').
Proof.
  intros Hc Hb Hs. unfold loop_body, contains. rewrite Hc.
  unfold bind at 1. rewrite first_token_run.
  destruct (time_to_first_token f); run_py; rewrite Hc; simpl; rewrite Hb;
    simpl; rewrite Hs; eauto.
Qed.

(** A trace that is not a dict cannot take the [start_trace_time]. *)
Lemma loop_body_trace_not_dict e t f w :
  contains "chunk" e = false -> e !! "trace" = Some t ->
  (forall d, t <> PDict d) ->
  loop_body e f w = (Raise (TypeError "item assignment"), tick w).
Proof.
  intros Hc Ht Hd. unfold loop_body. rewrite Hc. unfold contains. rewrite Ht.
  run_py. rewrite Ht. simpl.
  destruct t; try reflexivity. destruct (Hd d). reflexivity.
Qed.

(** ** What a call does to the world *)

Lemma same_but_clock_reads_refl w : same_but_clock_reads w w.
Proof. unfold same_but_clock_reads. auto 10. Qed.

Lemma same_but_clock_reads_tick w : same_but_clock_reads w (tick w).
Proof. unfold same_but_clock_reads. simpl. auto 10. Qed.

Lemma same_but_clock_reads_trans w1 w2 w3 :
  same_but_clock_reads w1 w2 -> same_but_clock_reads w2 w3 ->
  same_but_clock_reads w1 w3.
Proof.
  unfold same_but_clock_reads.
  intros (-> & -> & -> & -> & -> & ?) (-> & -> & -> & -> & -> & ?).
  repeat split; lia.
Qed.

Lemma loop_body_world e f w :
  same_but_clock_reads w (snd (loop_body e f w)).
Proof.
  unfold loop_body.
  destruct (contains "chunk" e).
  - unfold bind at 1. rewrite first_token_run.
    assert (Hrest : forall f1 w0,
               snd ((chunk <- lift (subscript (PDict e) "chunk") ;;
                     data <- lift (subscript chunk "bytes") ;;
                     answer <- lift (decode data) ;;
                     ret {| start_time := start_time f1;
                            time_to_first_token := time_to_first_token f1;
                            time_at_first_token := time_at_first_token f1;
                            agentResponse := agentResponse f1;
                            agent_answer := Some answer;
                            end_event_received := true;
                            trace_data := trace_data f1 |}) w0) = w0).
    { intros f1 w0. unfold bind, lift, ret.
      destruct (subscript (PDict e) "chunk") as [c|]; [|reflexivity].
      destruct (subscript c "bytes") as [b|]; [|reflexivity].
      destruct (decode b); reflexivity. }
    destruct (time_to_first_token f); rewrite Hrest;
      auto using same_but_clock_reads_refl, same_but_clock_reads_tick.
  - destruct (contains "trace" e); [|apply same_but_clock_reads_refl].
    unfold bind, lift, ret, time_time.
    destruct (subscript (PDict e) "trace") as [t|];
      [|apply same_but_clock_reads_refl].
    destruct (setitem t _ _); apply same_but_clock_reads_tick.
Qed.

Lemma for_event_world s : forall f w,
  same_but_clock_reads w (snd (for_event s f w)).
Proof.
  induction s as [|e rest IH|x]; intros f w; simpl;
    try apply same_but_clock_reads_refl.
  unfold bind.
  pose proof (loop_body_world e (advance rest f) w) as H1.
  destruct (loop_body e (advance rest f) w) as [[f1|x] w1]; simpl in *;
    [|exact H1].
  eapply same_but_clock_reads_trans; [exact H1|apply IH].
Qed.

(** The readings of the clock taken by a loop that finishes: one for each
    trace event, and one at the first chunk event if none was seen yet. *)
Lemma for_event_ticks_kept l : forall f w f' w' t,
  time_to_first_token f = Some t ->
  for_event (events l) f w = (Return f', w') ->
  ticks w' = ticks w + length (List.filter is_trace l).
Proof.
  induction l as [|e l IH]; intros f w f' w' t Ht H; simpl in H.
  - injection H as _ <-. simpl. lia.
  - unfold bind in H.
    destruct (loop_body e (advance (events l) f) w) as [[f1|x] w1] eqn:H1;
      [|discriminate].
    simpl. unfold is_trace at 1.
    destruct (contains "chunk" e) eqn:Hc; simpl.
    + destruct (loop_body_chunk _ _ _ _ _ Hc H1)
        as (c & bs & s & f2 & _ & _ & _ & H2 & ->).
      rewrite first_token_run in H2. simpl in H2. rewrite Ht in H2.
      injection H2 as <- <-.
      eapply IH in H; [exact H|simpl; exact Ht].
    + destruct (loop_body_trace _ _ _ _ _ Hc H1) as (d & Hd & -> & ->).
      unfold contains at 1. rewrite Hd.
      eapply IH in H; [|simpl; exact Ht]. rewrite H. simpl. lia.
Qed.

Lemma for_event_ticks_first l : forall f w f' w',
  time_to_first_token f = None ->
  for_event (events l) f w = (Return f', w') ->
  ticks w' = ticks w + length (List.filter is_trace l)
             + (if existsb is_chunk l then 1 else 0).
Proof.
  induction l as [|e l IH]; intros f w f' w' Ht H; simpl in H.
  - injection H as _ <-. simpl. lia.
  - unfold bind in H.
    destruct (loop_body e (advance (events l) f) w) as [[f1|x] w1] eqn:H1;
      [|discriminate].
    simpl. unfold is_trace at 1, is_chunk at 1.
    destruct (contains "chunk" e) eqn:Hc; simpl.
    + destruct (loop_body_chunk _ _ _ _ _ Hc H1)
        as (c & bs & s & f2 & _ & _ & _ & H2 & ->).
      rewrite first_token_run in H2. simpl in H2. rewrite Ht in H2.
      injection H2 as <- <-.
      eapply for_event_ticks_kept in H; [|reflexivity].
      rewrite H. simpl. lia.
    + destruct (loop_body_trace _ _ _ _ _ Hc H1) as (d & Hd & -> & ->).
      unfold contains at 1. rewrite Hd.
      eapply IH in H; [|simpl; exact Ht]. rewrite H. simpl. lia.
Qed.

(** The stamps of the traces are successive readings of the clock. *)
Lemma for_event_stamps l : forall f w f' w',
  for_event (events l) f w = (Return f', w') ->
  exists ts idxs,
    trace_data f' = trace_data f ++ ts /\
    Forall2 (stamped_at (clock w)) ts idxs /\
    StronglySorted lt idxs /\
    Forall (fun i => ticks w <= i < ticks w') idxs.
Proof.
  induction l as [|e l IH]; intros f w f' w' H; simpl in H.
  - injection H as <- <-. exists [], []. simpl. rewrite app_nil_r.
    repeat split; constructor.
  - unfold bind in H.
    destruct (loop_body e (advance (events l) f) w) as [[f1|x] w1] eqn:H1;
      [|discriminate].
    pose proof (for_event_world (events l) f1 w1) as Hw. rewrite H in Hw.
    destruct Hw as (_ & _ & _ & _ & _ & Hle). simpl in Hle.
    apply IH in H as (ts & idxs & Hts & Hst & Hsorted & Hin).
    destruct (contains "chunk" e) eqn:Hc.
    + destruct (loop_body_chunk _ _ _ _ _ Hc H1)
        as (c & bs & s & f2 & _ & _ & _ & H2 & ->).
      rewrite first_token_run in H2. simpl in H2.
      exists ts, idxs.
      destruct (time_to_first_token f); injection H2 as <- <-;
        simpl in *; (split; [exact Hts|]); (split; [exact Hst|]);
        (split; [exact Hsorted|]);
        (eapply Forall_impl; [exact Hin|]); simpl; intros; lia.
    + destruct (loop_body_trace _ _ _ _ _ Hc H1) as (d & Hd & -> & ->).
      simpl in *.
      exists (PDict (<["start_trace_time" := PFloat (clock w (ticks w))]> d) :: ts),
             (ticks w :: idxs).
      split; [rewrite Hts, <- app_assoc; reflexivity|].
      split; [constructor; [|exact Hst]|].
      { eexists. split; [reflexivity|]. apply lookup_insert_eq. }
      split.
      * constructor; [exact Hsorted|].
        eapply Forall_impl; [exact Hin|]. simpl. intros; lia.
      * constructor; [lia|].
        eapply Forall_impl; [exact Hin|]. simpl. intros; lia.
Qed.

(** ** The decorator *)

Section Watch.

Variables (ci co : bool) (ct : string) (func : callable).

(** A decorated call, step by step. *)
Lemma watch_run args w :
  watch ci co ct func args w =
  match func args w with
  | (Raise x, w0) => (Raise x, w0)
  | (Return result, w0) =>
      let log :=
        {| run_id := uuid4 w0 (minted w0);
           observation_id := uuid4 w0 (S (minted w0));
           call_type := ct;
           captured_input := if ci then head args else None;
           captured_output := if co then Some result else None;
           timestamp := clock w0 (ticks w0) |} in
      (Return (PTuple [result; log_to_py log;
                       PStr (run_id log); PStr (observation_id log)]),
       {| clock := clock w0; ticks := S (ticks w0);
          agent_runtime := agent_runtime w0;
          uuid4 := uuid4 w0; minted := S (S (minted w0));
          sink := sink w0 ++ [log] |})
  end.
Proof.
  unfold watch, bind. destruct (func args w) as [[result|x] w0]; reflexivity.
Qed.

(** C4: a decorated call whose function returns gives back a tuple of
    four: the function's result, the log record, and a run_id and an
    observation_id drawn from the identifier generator at this call, both
    strings and so not [None]; it is the tuple the notebook unpacks. *)
Theorem watched_call_returns_identifiers args w result w1 :
  func args w = (Return result, w1) ->
  exists log w2,
    let rid := uuid4 w1 (minted w1) in
    let oid := uuid4 w1 (S (minted w1)) in
    watch ci co ct func args w
    = (Return (PTuple [result; log; PStr rid; PStr oid]), w2) /\
    minted w2 = S (S (minted w1)) /\
    length [result; log; PStr rid; PStr oid] = 4 /\
    unpack4 (PTuple [result; log; PStr rid; PStr oid])
    = Return (result, log, PStr rid, PStr oid) /\
    PStr rid <> PNone /\ PStr oid <> PNone.
Proof.
  intros Hf. rewrite watch_run, Hf. cbv zeta. simpl.
  do 2 eexists. split; [reflexivity|]. simpl. repeat split; discriminate.
Qed.

(** C5: two successful decorated calls that agree on the first
    positional argument write records with the same [captured_input],
    whatever the other arguments are: it is the first argument, or nothing
    when input capture is off. *)
Theorem watch_logs_first_argument_only first rest1 rest2 w1 w2 v1 v2 w1' w2' :
  watch ci co ct func (first :: rest1) w1 = (Return v1, w1') ->
  watch ci co ct func (first :: rest2) w2 = (Return v2, w2') ->
  exists rec1 rec2,
    last (sink w1') = Some rec1 /\ last (sink w2') = Some rec2 /\
    captured_input rec1 = captured_input rec2 /\
    captured_input rec1 = (if ci then Some first else None).
Proof.
  rewrite !watch_run. intros H1 H2.
  destruct (func (first :: rest1) w1) as [[r1|x1] u1]; [|discriminate].
  destruct (func (first :: rest2) w2) as [[r2|x2] u2]; [|discriminate].
  cbv zeta in H1, H2. injection H1 as _ <-. injection H2 as _ <-. simpl.
  rewrite !last_snoc. do 2 eexists. repeat split.
Qed.

End Watch.

(** ** [invoke_agent] as a whole *)

Section Call.

(** The arguments [query_to_agent], [agent_id], [agent_alias_id],
    [session_id], [enableTrace] and [endSession] of the call at hand. *)
Variables q agent alias session et es : pyval.

(** The [try] block, step by step. *)
Lemma invoke_agent_try_run w :
  invoke_agent_try q agent alias session et es w =
  match agent_runtime w (request_of q agent alias session et es) with
  | Raise x => (Raise x, tick w)
  | Return r =>
      match for_event (completion r) (locals_at_loop (clock w (ticks w)) r) (tick w) with
      | (Raise x, w1) => (Raise x, w1)
      | (Return f, w1) =>
          if end_event_received f then
            match since (clock w1 (ticks w1)) (time_at_first_token f) with
            | Return d =>
                (Return (set_metadata "time_to_last_token" (PFloat d)
                           (set_metadata "time_to_first_token"
                              (float_or_none (time_to_first_token f)) f)),
                 tick w1)
            | Raise x => (Raise x, tick w1)
            end
          else (Raise (Exception "End event not received." []), w1)
      end
  end.
Proof.
  unfold invoke_agent_try, request_of, locals_at_loop. run_py.
  destruct (agent_runtime w _) as [r|x]; [|reflexivity].
  destruct (for_event _ _ _) as [[f|x] w1]; [|reflexivity].
  destruct (end_event_received f); simpl; [|reflexivity].
  destruct (since _ _); reflexivity.
Qed.

(** The [except] branch re-raises, the [return] statement builds the
    tuple: [invoke_agent] ends as its [try] block does. *)
Lemma invoke_agent_run cfg w :
  invoke_agent q agent alias session et es cfg w =
  match invoke_agent_try q agent alias session et es w with
  | (Return f, w') =>
      (Return (PTuple [PDict (ResponseMetadata (agentResponse f));
                       str_or_none (agent_answer f);
                       PList (trace_data f)]), w')
  | (Raise x, w') => (Raise x, w')
  end.
Proof.
  unfold invoke_agent. run_py.
  destruct (invoke_agent_try q agent alias session et es w) as [[f|x] w']; reflexivity.
Qed.

(** What a [try] block that completes went through. *)
Lemma invoke_agent_try_returns w f' w' :
  invoke_agent_try q agent alias session et es w = (Return f', w') ->
  exists r l f w1 d,
    agent_runtime w (request_of q agent alias session et es) = Return r /\
    completion r = events l /\
    for_event (events l) (locals_at_loop (clock w (ticks w)) r) (tick w)
    = (Return f, w1) /\
    end_event_received f = true /\
    since (clock w1 (ticks w1)) (time_at_first_token f) = Return d /\
    f' = set_metadata "time_to_last_token" (PFloat d)
           (set_metadata "time_to_first_token"
              (float_or_none (time_to_first_token f)) f) /\
    w' = tick w1.
Proof.
  intros H. rewrite invoke_agent_try_run in H.
  destruct (agent_runtime w (request_of q agent alias session et es)) as [r|x];
    [|discriminate].
  destruct (for_event _ _ (tick w)) as [[f|x] w1] eqn:Hloop; [|discriminate].
  destruct (for_event_finite _ _ _ _ _ Hloop) as [l Hl]. rewrite Hl in Hloop.
  destruct (end_event_received f) eqn:He; [|discriminate].
  destruct (since _ _) as [d|x] eqn:Hd; [|discriminate].
  injection H as <- <-. exists r, l, f, w1, d. auto 10.
Qed.

(** *** Streams without a chunk event *)

(** C1: when the loop runs off the end of the stream without having met
    a chunk event, [invoke_agent] raises "End event not received." and
    returns no result.  Among the streams without a chunk event, the loop
    runs off the end of exactly those whose events are all trace
    events. *)
Theorem end_event_not_received w cfg r l :
  agent_runtime w (request_of q agent alias session et es) = Return r ->
  completion r = events l ->
  Forall (fun e => is_chunk e = false) l ->
  (runs_off_the_end w r ->
   fst (invoke_agent q agent alias session et es cfg w)
   = Raise (Exception "End event not received." [])) /\
  (runs_off_the_end w r <-> Forall trace_ok l) /\
  (forall v, fst (invoke_agent q agent alias session et es cfg w) <> Return v).
Proof.
  intros Hr Hl Hno.
  assert (Hend : forall f w1,
             for_event (events l) (locals_at_loop (clock w (ticks w)) r) (tick w)
             = (Return f, w1) -> end_event_received f = false).
  { intros f w1 Hloop.
    destruct (for_event_answer _ _ _ _ _ Hloop)
      as [(_ & _ & He)|(l1 & e & l2 & c & bs & s0 & -> & _ & Hc & _)].
    - exact He.
    - apply Forall_app in Hno as [_ Hno]. inversion Hno as [|? ? He _]; subst.
      unfold is_chunk, contains in He. rewrite Hc in He. discriminate. }
  split; [|split].
  - intros (f & w1 & Hloop). rewrite Hl in Hloop.
    rewrite invoke_agent_run, invoke_agent_try_run, Hr, Hl, Hloop.
    rewrite (Hend _ _ Hloop). reflexivity.
  - unfold runs_off_the_end. rewrite Hl. split.
    + intros (f & w1 & Hloop). apply for_event_handled in Hloop.
      rewrite Forall_forall in *. intros e Hin.
      destruct (Hloop e Hin) as [(c & bs & s0 & Hc & _)|Hok]; [|exact Hok].
      specialize (Hno e Hin). unfold is_chunk, contains in Hno.
      rewrite Hc in Hno. discriminate.
    + intros Hok. apply for_event_total.
      eapply Forall_impl; [exact Hok|]. intros e He. right. exact He.
  - intros v. rewrite invoke_agent_run, invoke_agent_try_run, Hr, Hl.
    destruct (for_event (events l) _ (tick w)) as [[f|x] w1] eqn:Hloop;
      [|discriminate].
    rewrite (Hend f w1 eq_refl). discriminate.
Qed.

(** *** Unrecognised events *)

(** C2: a stream holding an event that is neither a chunk nor a trace
    event never lets [invoke_agent] return a result, and when the loop
    reaches that event (the events before it being handled) the error
    raised is "Unexpected event." with the event. *)
Theorem unexpected_event_raises w cfg r pre e rest :
  agent_runtime w (request_of q agent alias session et es) = Return r ->
  completion r = yields pre (Yield e rest) ->
  contains "chunk" e = false -> contains "trace" e = false ->
  (forall v, fst (invoke_agent q agent alias session et es cfg w) <> Return v) /\
  (Forall handled pre ->
   fst (invoke_agent q agent alias session et es cfg w)
   = Raise (Exception "Unexpected event." [PDict e])).
Proof.
  intros Hr Hs Hc Ht.
  rewrite invoke_agent_run, invoke_agent_try_run, Hr, Hs. split.
  - destruct (for_event _ _ (tick w)) as [[f|x] w1] eqn:Hloop.
    + destruct (for_event_finite _ _ _ _ _ Hloop) as [l Hl].
      rewrite Hl in Hloop. apply for_event_recognised in Hloop.
      apply yields_events in Hl. rewrite Forall_forall in Hloop.
      apply list_elem_of_In in Hl.
      destruct (Hloop _ Hl) as [He|He]; unfold is_chunk, is_trace in He.
      * congruence.
      * rewrite Hc, Ht in He. discriminate.
    + discriminate.
  - intros Hpre.
    destruct (for_event_reaches_unexpected pre e rest
                (locals_at_loop (clock w (ticks w)) r) (tick w) Hpre Hc Ht)
      as [w' ->].
    reflexivity.
Qed.

(** *** Successful calls *)

(** C6: the answer returned is the decoded payload of the last chunk
    event of the stream, whatever the chunk events before it carried, and
    the traces returned are those of the trace events, in stream order,
    each with its [start_trace_time]. *)
Theorem answer_is_last_chunk w cfg v w' :
  invoke_agent q agent alias session et es cfg w = (Return v, w') ->
  exists r l1 e l2 c bs answer meta traces,
    agent_runtime w (request_of q agent alias session et es) = Return r /\
    completion r = events (l1 ++ e :: l2) /\
    Forall (fun e' => is_chunk e' = false) l2 /\
    e !! "chunk" = Some (PDict c) /\ c !! "bytes" = Some (PBytes bs) /\
    utf8_decode bs = Some answer /\
    v = PTuple [PDict meta; PStr answer; PList traces] /\
    Forall2 stamped (List.filter is_trace (l1 ++ e :: l2)) traces.
Proof.
  intros H. rewrite invoke_agent_run in H.
  destruct (invoke_agent_try q agent alias session et es w) as [[f'|x] w0] eqn:Htry;
    [|discriminate].
  injection H as <- <-.
  destruct (invoke_agent_try_returns _ _ _ Htry)
    as (r & l & f & w1 & d & Hr & Hl & Hloop & He & _ & -> & _).
  destruct (for_event_traces _ _ _ _ _ Hloop) as (ts & Hts & Hall).
  destruct (for_event_answer _ _ _ _ _ Hloop)
    as [(_ & _ & He')|(l1 & e & l2 & c & bs & ans & -> & Hno & Hc & Hb & Hs & Ha & _)].
  - rewrite He in He'. discriminate.
  - exists r, l1, e, l2, c, bs, ans. simpl. rewrite Ha, Hts.
    simpl. eauto 12.
Qed.

(** C7: a call that returns has read its stream to the end: the response
    it holds is the one the service gave, with its iterator exhausted, and
    every event of the stream has had its turn in the loop (each one was
    handled, the trace of every trace event is in [trace_data], the answer
    comes from the last chunk event, and the clock was read once for each
    trace event besides the three other readings).  A stream of
    well-formed chunk and trace events with at least one chunk event does
    make the call return. *)
Theorem stream_read_to_completion w cfg r l :
  agent_runtime w (request_of q agent alias session et es) = Return r ->
  completion r = events l ->
  Forall (fun e => is_chunk e = true \/ is_trace e = true) l ->
  Exists (fun e => is_chunk e = true) l ->
  (forall f' w',
     invoke_agent_try q agent alias session et es w = (Return f', w') ->
     completion (agentResponse f') = StopIteration /\
     fields (agentResponse f') = fields r /\
     Forall handled l /\
     Forall2 stamped (List.filter is_trace l) (trace_data f') /\
     (exists l1 e l2 c bs answer,
        l = l1 ++ e :: l2 /\ Forall (fun e' => is_chunk e' = false) l2 /\
        e !! "chunk" = Some (PDict c) /\ c !! "bytes" = Some (PBytes bs) /\
        utf8_decode bs = Some answer /\ agent_answer f' = Some answer) /\
     ticks w' = ticks w + 3 + length (List.filter is_trace l)) /\
  (Forall handled l ->
   exists f' w' v,
     invoke_agent_try q agent alias session et es w = (Return f', w') /\
     invoke_agent q agent alias session et es cfg w = (Return v, w') /\
     v = PTuple [PDict (ResponseMetadata (agentResponse f'));
                 str_or_none (agent_answer f'); PList (trace_data f')] /\
     completion (agentResponse f') = StopIteration).
Proof.
  intros Hr Hl Hkind Hchunk. split.
  - intros f' w' Htry.
    destruct (invoke_agent_try_returns _ _ _ Htry)
      as (r0 & l0 & f & w1 & d & Hr0 & Hl0 & Hloop & He & _ & -> & ->).
    rewrite Hr in Hr0. injection Hr0 as <-.
    rewrite Hl in Hl0. apply events_inj in Hl0 as <-.
    destruct (for_event_frame _ _ _ _ _ Hloop) as (_ & Hresp & _).
    destruct (for_event_traces _ _ _ _ _ Hloop) as (ts & Hts & Hall).
    pose proof (for_event_handled _ _ _ _ _ Hloop) as Hok.
    pose proof (for_event_ticks_first l (locals_at_loop (clock w (ticks w)) r)
                  _ _ _ eq_refl Hloop) as Hticks.
    destruct (for_event_answer _ _ _ _ _ Hloop)
      as [(_ & _ & He')|(l1 & e & l2 & c & bs & s0 & -> & Hno & Hc & Hb & Hs & Ha & _)].
    { rewrite He in He'. discriminate. }
    assert (Hex : existsb is_chunk (l1 ++ e :: l2) = true).
    { rewrite existsb_app. simpl. unfold is_chunk at 2, contains.
      rewrite Hc. simpl. apply orb_true_r. }
    rewrite Hex in Hticks. simpl in *. rewrite Hresp, Hts. simpl.
    split; [reflexivity|]. split; [reflexivity|]. split; [exact Hok|].
    split; [exact Hall|]. split; [|lia].
    exists l1, e, l2, c, bs, s0. auto 10.
  - intros Hok.
    destruct (for_event_total l (locals_at_loop (clock w (ticks w)) r) (tick w) Hok)
      as (f & w1 & Hloop).
    apply Exists_exists in Hchunk as (e & Hin & He).
    assert (Hend : end_event_received f = true).
    { destruct (for_event_answer _ _ _ _ _ Hloop)
        as [(Hno & _)|(? & ? & ? & ? & ? & ? & H)]; [|tauto].
      rewrite Forall_forall in Hno. rewrite (Hno _ Hin) in He. discriminate. }
    assert (Ht : exists t, time_at_first_token f = Some t).
    { destruct (for_event_first_token l (locals_at_loop (clock w (ticks w)) r)
                  _ _ _ eq_refl Hloop)
        as [(Hno & _)|(? & ? & ? & _ & _ & _ & H & _)]; [|eauto].
      rewrite Forall_forall in Hno. rewrite (Hno _ Hin) in He. discriminate. }
    destruct Ht as [t Ht].
    assert (Htry : exists f',
               invoke_agent_try q agent alias session et es w
               = (Return f', tick w1) /\
               completion (agentResponse f') = StopIteration).
    { rewrite invoke_agent_try_run, Hr, Hl, Hloop, Hend, Ht. simpl.
      eexists. split; [reflexivity|].
      destruct (for_event_frame _ _ _ _ _ Hloop) as (_ & Hresp & _).
      simpl. rewrite Hresp. reflexivity. }
    destruct Htry as (f' & Htry & Hdone). exists f', (tick w1). eexists.
    split; [exact Htry|]. split; [|split; [reflexivity|exact Hdone]].
    rewrite invoke_agent_run, Htry. reflexivity.
Qed.

(** C8: a call that returns has put [time_to_first_token] and
    [time_to_last_token] into the response's metadata and changed nothing
    else of it, nor any other key of the response;
    [time_to_first_token] is the clock reading taken at the first chunk
    event minus the start time, whatever chunk events follow.  That
    metadata is the first value returned. *)
Theorem metadata_gains_two_keys w cfg f' w' :
  invoke_agent_try q agent alias session et es w = (Return f', w') ->
  exists r l1 e l2,
    agent_runtime w (request_of q agent alias session et es) = Return r /\
    completion r = events (l1 ++ e :: l2) /\
    Forall (fun e' => is_chunk e' = false) l1 /\ is_chunk e = true /\
    let first := clock w (S (ticks w) + length l1) in
    let meta := ResponseMetadata (agentResponse f') in
    meta = <["time_to_last_token" :=
               PFloat (clock w (Nat.pred (ticks w')) - first)%float]>
             (<["time_to_first_token" :=
                  PFloat (first - clock w (ticks w))%float]>
                (ResponseMetadata r)) /\
    dom meta = {["time_to_first_token"; "time_to_last_token"]}
               ∪ dom (ResponseMetadata r) /\
    (forall k, k <> "time_to_first_token" -> k <> "time_to_last_token" ->
               meta !! k = ResponseMetadata r !! k) /\
    fields (agentResponse f') = fields r /\
    fst (invoke_agent q agent alias session et es cfg w)
    = Return (PTuple [PDict meta; str_or_none (agent_answer f');
                      PList (trace_data f')]).
Proof.
  intros Htry.
  assert (Hret : fst (invoke_agent q agent alias session et es cfg w)
                 = Return (PTuple [PDict (ResponseMetadata (agentResponse f'));
                                   str_or_none (agent_answer f');
                                   PList (trace_data f')])).
  { rewrite invoke_agent_run, Htry. reflexivity. }
  revert Hret.
  destruct (invoke_agent_try_returns _ _ _ Htry)
    as (r & l & f & w1 & d & Hr & Hl & Hloop & He & Hd & -> & ->).
  intros Hret.
  destruct (for_event_frame _ _ _ _ _ Hloop) as (_ & Hresp & Hclock & _).
  destruct (for_event_first_token l (locals_at_loop (clock w (ticks w)) r)
              _ _ _ eq_refl Hloop)
    as [(Hno & _)|(l1 & e & l2 & -> & Hno & Hc & Hat & Hto)].
  { destruct (for_event_answer _ _ _ _ _ Hloop)
      as [(_ & _ & He')|(l1 & e & l2 & c & bs & s0 & -> & _ & Hc & _)].
    - rewrite He in He'. discriminate.
    - apply Forall_app in Hno as [_ Hno]. inversion Hno as [|? ? Hx _]; subst.
      unfold is_chunk, contains in Hx. rewrite Hc in Hx. discriminate. }
  exists r, l1, e, l2. split; [exact Hr|]. split; [exact Hl|].
  split; [exact Hno|]. split; [exact Hc|].
  simpl in Hat, Hto. rewrite Hat in Hd. simpl in Hd. injection Hd as <-.
  cbv zeta. rewrite Hret. simpl. rewrite Hresp, Hto, Hclock. simpl.
  split; [reflexivity|]. split; [|split; [|split; reflexivity]].
  - rewrite !dom_insert_L. apply set_eq. intros k.
    rewrite !elem_of_union. tauto.
  - intros k H1 H2. rewrite !lookup_insert_ne by congruence. reflexivity.
Qed.

(** *** Exceptions *)

(** C3: an exception met inside [invoke_agent] (raised by the agent API
    at the call, by its event stream, or anywhere else in the [try] block)
    is the one the caller gets, from [invoke_agent] and from its decorated
    form; the decorator passes on the exception of any callable. *)
Theorem exceptions_propagate_unchanged w cfg x :
  agent_runtime w (request_of q agent alias session et es) = Raise x \/
  (exists r pre,
     agent_runtime w (request_of q agent alias session et es) = Return r /\
     completion r = yields pre (Broken x) /\ Forall handled pre) \/
  fst (invoke_agent_try q agent alias session et es w) = Raise x ->
  fst (invoke_agent q agent alias session et es cfg w) = Raise x /\
  fst (invoke_agent_watched
         [q; agent; alias; session; et; es] w) = Raise x /\
  (forall (func : callable) ci co ct args w0 w1 y,
     func args w0 = (Raise y, w1) ->
     watch ci co ct func args w0 = (Raise y, w1)).
Proof.
  intros H.
  assert (Htry : fst (invoke_agent_try q agent alias session et es w) = Raise x).
  { destruct H as [Hr|[(r & pre & Hr & Hs & Hpre)|H]]; [| |exact H];
      rewrite invoke_agent_try_run, Hr; [reflexivity|].
    rewrite Hs.
    destruct (for_event_reaches_broken pre x
                (locals_at_loop (clock w (ticks w)) r) (tick w) Hpre) as [w' ->].
    reflexivity. }
  assert (Hany : forall cfg',
             fst (invoke_agent q agent alias session et es cfg' w) = Raise x).
  { intros cfg'. rewrite invoke_agent_run.
    destruct (invoke_agent_try q agent alias session et es w) as [[f|y] w']; simpl in *;
      [discriminate|congruence]. }
  split; [apply Hany|]. split.
  - unfold invoke_agent_watched. rewrite watch_run. simpl.
    specialize (Hany PNone).
    destruct (invoke_agent q agent alias session et es PNone w) as [[v|y] w']; simpl in *;
      [discriminate|congruence].
  - intros func ci co ct args w0 w1 y Hf. rewrite watch_run, Hf. reflexivity.
Qed.

End Call.

(** ** The feedback functions *)

(** C10: the feedback functions succeed on every payload and in every
    state of the sink: the body is [pass], and the decorator only appends
    the payload as a record of its call type; what the payload's
    [f_run_id] or [f_observation_id] refer to is never looked up. *)
Theorem feedback_always_succeeds feedback w :
  (exists v w' rec,
     observation_level_feedback_watched [feedback] w = (Return v, w') /\
     sink w' = sink w ++ [rec] /\
     call_type rec = "observation-feedback" /\
     captured_input rec = Some feedback) /\
  (exists v w' rec,
     session_level_feedback_watched [feedback] w = (Return v, w') /\
     sink w' = sink w ++ [rec] /\
     call_type rec = "session-feedback" /\
     captured_input rec = Some feedback).
Proof.
  unfold observation_level_feedback_watched, session_level_feedback_watched.
  rewrite !watch_run. simpl. split; do 3 eexists; repeat split.
Qed.

(** ** Concrete runs *)

Lemma end_event_not_received_witness :
  fst (invoke_agent Q K K K (PBool true) (PBool false) PNone
         (sample_world (Return (sample_response
            (events [trace_event "s"; trace_event "t"])))))
  = Raise (Exception "End event not received." []).
Proof.
  destruct (end_event_not_received
              Q K K K (PBool true) (PBool false)
              (sample_world (Return (sample_response
                 (events [trace_event "s"; trace_event "t"]))))
              PNone
              (sample_response (events [trace_event "s"; trace_event "t"]))
              [trace_event "s"; trace_event "t"]
              eq_refl eq_refl) as (Hraise & _ & _).
  - repeat constructor.
  - apply Hraise. do 2 eexists. vm_compute. reflexivity.
Defined.

Lemma unexpected_event_raises_witness :
  fst (invoke_agent Q K K K (PBool true) (PBool false) PNone
         (sample_world (Return (sample_response
            (yields [trace_event "s"; chunk_event "a"]
               (Yield ping_event (events [chunk_event "b"])))))))
  = Raise (Exception "Unexpected event." [PDict ping_event]).
Proof.
  refine (proj2 (unexpected_event_raises
            Q K K K (PBool true) (PBool false)
            (sample_world (Return (sample_response
               (yields [trace_event "s"; chunk_event "a"]
                  (Yield ping_event (events [chunk_event "b"]))))))
            PNone
            (sample_response
               (yields [trace_event "s"; chunk_event "a"]
                  (Yield ping_event (events [chunk_event "b"]))))
            [trace_event "s"; chunk_event "a"] ping_event
            (events [chunk_event "b"])
            eq_refl eq_refl eq_refl eq_refl) _).
  constructor; [|constructor; [|constructor]].
  - right. split; [reflexivity|]. eexists. reflexivity.
  - left. do 3 eexists. repeat split; reflexivity.
Defined.

Lemma exceptions_propagate_unchanged_witness :
  fst (invoke_agent Q K K K (PBool true) (PBool false) PNone
         (sample_world (Raise throttled))) = Raise throttled /\
  fst (invoke_agent_watched [Q; K; K; K; PBool true; PBool false]
         (sample_world (Raise throttled))) = Raise throttled.
Proof.
  destruct (exceptions_propagate_unchanged
              Q K K K (PBool true) (PBool false)
              (sample_world (Raise throttled)) PNone throttled
              (or_introl eq_refl)) as (H1 & H2 & _).
  split; assumption.
Defined.

Lemma answer_is_last_chunk_witness :
  exists v w',
    invoke_agent Q K K K (PBool true) (PBool false) PNone hello_world
    = (Return v, w') /\
    exists r l1 e l2 c bs answer meta traces,
      agent_runtime hello_world
        (request_of Q K K K (PBool true) (PBool false)) = Return r /\
      completion r = events (l1 ++ e :: l2) /\
      Forall (fun e' => is_chunk e' = false) l2 /\
      e !! "chunk" = Some (PDict c) /\ c !! "bytes" = Some (PBytes bs) /\
      utf8_decode bs = Some answer /\
      v = PTuple [PDict meta; PStr answer; PList traces] /\
      Forall2 stamped (List.filter is_trace (l1 ++ e :: l2)) traces.
Proof.
  do 2 eexists. split.
  - vm_compute. reflexivity.
  - eapply (answer_is_last_chunk Q K K K (PBool true) (PBool false)
              hello_world PNone).
    vm_compute. reflexivity.
Defined.

Lemma stream_read_to_completion_witness :
  exists f' w',
    invoke_agent_try Q K K K (PBool true) (PBool false) hello_world
    = (Return f', w') /\
    completion (agentResponse f') = StopIteration /\
    fields (agentResponse f') = fields (sample_response (events hello_events)) /\
    Forall2 stamped (List.filter is_trace hello_events) (trace_data f') /\
    agent_answer f' = Some (str "lo") /\
    ticks w' = ticks hello_world + 3 + 1.
Proof.
  destruct (stream_read_to_completion
              Q K K K (PBool true) (PBool false) hello_world PNone
              (sample_response (events hello_events)) hello_events
              eq_refl eq_refl) as [Hread Hreturns].
  - constructor; [left; reflexivity|].
    constructor; [right; reflexivity|].
    constructor; [left; reflexivity|constructor].
  - constructor. reflexivity.
  - destruct Hreturns as (f' & w' & v & Htry & _).
    { constructor; [|constructor; [|constructor; [|constructor]]].
      + left. do 3 eexists. repeat split; reflexivity.
      + right. split; [reflexivity|]. eexists. reflexivity.
      + left. do 3 eexists. repeat split; reflexivity. }
    destruct (Hread f' w' Htry) as (Hdone & Hfields & _ & Htraces & Hans & Hticks).
    exists f', w'. split; [exact Htry|]. split; [exact Hdone|].
    split; [exact Hfields|]. split; [exact Htraces|]. split; [|exact Hticks].
    pose proof Htry as Hrun. vm_compute in Hrun. injection Hrun as <- _.
    reflexivity.
Defined.

Lemma metadata_gains_two_keys_witness :
  exists f' w',
    invoke_agent_try Q K K K (PBool true) (PBool false) hello_world
    = (Return f', w') /\
    exists r l1 e l2,
      agent_runtime hello_world
        (request_of Q K K K (PBool true) (PBool false)) = Return r /\
      completion r = events (l1 ++ e :: l2) /\
      Forall (fun e' => is_chunk e' = false) l1 /\ is_chunk e = true /\
      let first := clock hello_world (S (ticks hello_world) + length l1) in
      let meta := ResponseMetadata (agentResponse f') in
      meta = <["time_to_last_token" :=
                 PFloat (clock hello_world (Nat.pred (ticks w')) - first)%float]>
               (<["time_to_first_token" :=
                    PFloat (first - clock hello_world (ticks hello_world))%float]>
                  (ResponseMetadata r)) /\
      dom meta = {["time_to_first_token"; "time_to_last_token"]}
                 ∪ dom (ResponseMetadata r) /\
      (forall k, k <> "time_to_first_token" -> k <> "time_to_last_token" ->
                 meta !! k = ResponseMetadata r !! k) /\
      fields (agentResponse f') = fields r /\
      fst (invoke_agent Q K K K (PBool true) (PBool false) PNone hello_world)
      = Return (PTuple [PDict meta; str_or_none (agent_answer f');
                        PList (trace_data f')]).
Proof.
  do 2 eexists. split.
  - vm_compute. reflexivity.
  - eapply (metadata_gains_two_keys Q K K K (PBool true) (PBool false)
              hello_world PNone).
    vm_compute. reflexivity.
Defined.

Lemma watched_call_returns_identifiers_witness :
  exists log w2,
    observation_level_feedback_watched [Q] (sample_world (Raise throttled))
    = (Return (PTuple [PNone; log; PStr (sample_uuid4 0); PStr (sample_uuid4 1)]),
       w2).
Proof.
  destruct (watched_call_returns_identifiers true true "observation-feedback"
              observation_level_feedback [Q] (sample_world (Raise throttled))
              PNone (sample_world (Raise throttled)) eq_refl)
    as (log & w2 & H & _).
  exists log, w2. exact H.
Defined.

Lemma watch_logs_first_argument_only_witness :
  exists rec1 rec2,
    last (sink (snd (invoke_agent_watched
                       (Q :: [K; K; K; PBool true; PBool false]) hello_world)))
    = Some rec1 /\
    last (sink (snd (invoke_agent_watched (Q :: other_agent) hello_world)))
    = Some rec2 /\
    captured_input rec1 = captured_input rec2 /\
    captured_input rec1 = Some Q.
Proof.
  apply (watch_logs_first_argument_only true true "agent-in-prod"
           invoke_agent_call Q [K; K; K; PBool true; PBool false] other_agent
           hello_world hello_world
           (returned (fst (invoke_agent_watched
              (Q :: [K; K; K; PBool true; PBool false]) hello_world)))
           (returned (fst (invoke_agent_watched (Q :: other_agent) hello_world))));
    vm_compute; reflexivity.
Defined.

(** The cell that calls the decorated [invoke_agent] gets its four values. *)
Example cell_invoke_agent_unpacks :
  exists meta traces log,
    fst (cell_invoke_agent Q K K K (PBool true) (PBool false) hello_world)
    = Return (PTuple [PDict meta; PStr (str "lo"); PList traces], log,
              PStr (sample_uuid4 0), PStr (sample_uuid4 1)).
Proof. do 3 eexists. vm_compute. reflexivity. Qed.

(** Feedback on identifiers that no record carries, into an empty sink. *)
Example feedback_on_unknown_ids :
  exists v w',
    observation_level_feedback_watched
      [observation_feedback_from_front_end
         (PStr (str "no-such-run")) (PStr (str "no-such-observation"))]
      (sample_world (Raise throttled))
    = (Return v, w') /\ length (sink w') = 1.
Proof. do 2 eexists. split; [vm_compute; reflexivity|reflexivity]. Qed.

(** * Further properties of [invoke_agent] *)

(** ** Decoded text *)

Lemma utf8_decode_scalar_values n : forall bs s,
  length bs <= n -> utf8_decode bs = Some s -> Forall scalar_value s.
Proof.
  induction n as [|n IH]; intros bs s Hn H.
  - destruct bs; [|simpl in Hn; lia]. injection H as <-. constructor.
  - destruct bs as [|b0 r0]; [injection H as <-; constructor|].
    cbn [utf8_decode] in H. simpl in Hn.
    pose proof (Byte.to_N_bounded b0) as Hb0.
    destruct (N.ltb_spec (Byte.to_N b0) 128).
    { destruct (utf8_decode r0) as [s0|] eqn:Hrest; [|discriminate].
      injection H as <-. constructor; [unfold scalar_value; lia|].
      eapply IH; [|exact Hrest]. lia. }
    destruct (N.ltb_spec (Byte.to_N b0) 194); [discriminate|].
    destruct (N.ltb_spec (Byte.to_N b0) 224).
    { destruct r0 as [|b1 r1]; [discriminate|].
      unfold continuation in H.
      destruct (N.leb_spec 128 (Byte.to_N b1)); [|discriminate].
      destruct (N.leb_spec (Byte.to_N b1) 191); [|discriminate].
      simpl in H, Hn.
      destruct (utf8_decode r1) as [s0|] eqn:Hrest; [|discriminate].
      injection H as <-. constructor; [unfold scalar_value; lia|].
      eapply IH; [|exact Hrest]. lia. }
    destruct (N.ltb_spec (Byte.to_N b0) 240).
    { destruct r0 as [|b1 [|b2 r2]]; try discriminate.
      destruct (_ && _) eqn:Hcond in H; [|discriminate].
      destruct (utf8_decode r2) as [s0|] eqn:Hrest; [|discriminate].
      injection H as <-.
      rewrite !andb_true_iff, negb_true_iff, andb_false_iff in Hcond.
      unfold continuation in Hcond.
      rewrite !andb_true_iff, !N.leb_le, !N.leb_gt in Hcond.
      simpl in Hn.
      constructor; [unfold scalar_value; lia|].
      eapply IH; [|exact Hrest]. lia. }
    destruct (N.ltb_spec (Byte.to_N b0) 245); [|discriminate].
    destruct r0 as [|b1 [|b2 [|b3 r3]]]; try discriminate.
    destruct (_ && _) eqn:Hcond in H; [|discriminate].
    destruct (utf8_decode r3) as [s0|] eqn:Hrest; [|discriminate].
    injection H as <-.
    rewrite !andb_true_iff in Hcond. unfold continuation in Hcond.
    rewrite !andb_true_iff, !N.leb_le in Hcond.
    simpl in Hn.
    constructor; [unfold scalar_value; lia|].
    eapply IH; [|exact Hrest]. lia.
Qed.

(** Bytes that stop on a lead byte do not decode. *)
Lemma utf8_decode_cut n : forall bs b,
  length bs <= n -> (192 <= Byte.to_N b)%N -> utf8_decode (bs ++ [b]) = None.
Proof.
  induction n as [|n IH]; intros bs b Hn Hb.
  - destruct bs; [|simpl in Hn; lia]. cbn [app utf8_decode].
    destruct (N.ltb_spec (Byte.to_N b) 128); [lia|].
    repeat (destruct (_ <? _)%N; try reflexivity).
  - destruct bs as [|b0 r0].
    { cbn [app utf8_decode].
      destruct (N.ltb_spec (Byte.to_N b) 128); [lia|].
      repeat (destruct (_ <? _)%N; try reflexivity). }
    simpl in Hn. cbn [app utf8_decode].
    assert (Hnc : continuation (Byte.to_N b) = false).
    { unfold continuation. apply andb_false_iff. right. apply N.leb_gt. lia. }
    destruct (_ <? 128)%N; [rewrite IH by lia; reflexivity|].
    destruct (_ <? 194)%N; [reflexivity|].
    destruct (_ <? 224)%N.
    { destruct r0 as [|b1 r1]; cbn [app].
      - rewrite Hnc. reflexivity.
      - simpl in Hn. destruct (continuation (Byte.to_N b1)); [|reflexivity].
        rewrite IH by lia. reflexivity. }
    destruct (_ <? 240)%N.
    { destruct r0 as [|b1 [|b2 r2]]; cbn [app]; try reflexivity.
      - rewrite Hnc, andb_false_r. reflexivity.
      - simpl in Hn.
        match goal with |- (if ?c then _ else None) = None => destruct c end;
          [|reflexivity].
        rewrite IH by lia. reflexivity. }
    destruct (_ <? 245)%N; [|reflexivity].
    destruct r0 as [|b1 [|b2 [|b3 r3]]]; cbn [app]; try reflexivity.
    + rewrite Hnc, !andb_false_r. reflexivity.
    + simpl in Hn.
      match goal with |- (if ?c then _ else None) = None => destruct c end;
        [|reflexivity].
      rewrite IH by lia. reflexivity.
Qed.

(** ** The outcome of a call *)

Section Outcome.

Variables q agent alias session et es : pyval.

(** A stream of well-formed events with a chunk event among them makes
    the [try] block complete. *)
Lemma invoke_agent_try_total w r l :
  agent_runtime w (request_of q agent alias session et es) = Return r ->
  completion r = events l ->
  Forall handled l -> Exists (fun e => is_chunk e = true) l ->
  exists f' w', invoke_agent_try q agent alias session et es w = (Return f', w').
Proof.
  intros Hr Hl Hok Hchunk.
  destruct (for_event_total l (locals_at_loop (clock w (ticks w)) r) (tick w) Hok)
    as (f & w1 & Hloop).
  apply Exists_exists in Hchunk as (e & Hin & He).
  assert (Hend : end_event_received f = true).
  { destruct (for_event_answer _ _ _ _ _ Hloop)
      as [(Hno & _)|(? & ? & ? & ? & ? & ? & H)]; [|tauto].
    rewrite Forall_forall in Hno. rewrite (Hno _ Hin) in He. discriminate. }
  assert (Ht : exists t, time_at_first_token f = Some t).
  { destruct (for_event_first_token l (locals_at_loop (clock w (ticks w)) r)
                _ _ _ eq_refl Hloop)
      as [(Hno & _)|(? & ? & ? & _ & _ & _ & H & _)]; [|eauto].
    rewrite Forall_forall in Hno. rewrite (Hno _ Hin) in He. discriminate. }
  destruct Ht as [t Ht].
  rewrite invoke_agent_try_run, Hr, Hl, Hloop, Hend, Ht. simpl. eauto.
Qed.

(** X1: [invoke_agent] returns a result exactly when the service answers
    with a stream that ends normally, whose events are all well-formed
    chunk or trace events, and that holds at least one chunk event. *)
Theorem invoke_agent_returns_iff w cfg :
  (exists v w', invoke_agent q agent alias session et es cfg w = (Return v, w'))
  <->
  (exists r l,
     agent_runtime w (request_of q agent alias session et es) = Return r /\
     completion r = events l /\
     Forall handled l /\ Exists (fun e => is_chunk e = true) l).
Proof.
  split.
  - intros (v & w' & H). rewrite invoke_agent_run in H.
    destruct (invoke_agent_try q agent alias session et es w) as [[f'|x] w0] eqn:Htry;
      [|discriminate].
    destruct (invoke_agent_try_returns _ _ _ _ _ _ _ _ _ Htry)
      as (r & l & f & w1 & d & Hr & Hl & Hloop & He & _).
    exists r, l. split; [exact Hr|]. split; [exact Hl|].
    split; [eapply for_event_handled; exact Hloop|].
    destruct (for_event_answer _ _ _ _ _ Hloop)
      as [(_ & _ & He')|(l1 & e & l2 & c & bs & s & -> & _ & Hc & _)].
    + rewrite He in He'. discriminate.
    + apply Exists_app. right. constructor.
      unfold is_chunk, contains. rewrite Hc. reflexivity.
  - intros (r & l & Hr & Hl & Hok & Hchunk).
    destruct (invoke_agent_try_total w r l Hr Hl Hok Hchunk) as (f' & w' & Htry).
    rewrite invoke_agent_run, Htry. eauto.
Qed.

(** The call ends with the exception of the first turn that raises. *)
Lemma invoke_agent_stops w cfg r pre e rest x :
  agent_runtime w (request_of q agent alias session et es) = Return r ->
  completion r = yields pre (Yield e rest) ->
  Forall handled pre ->
  (forall f w0, exists w', loop_body e f w0 = (Raise x, w')) ->
  fst (invoke_agent q agent alias session et es cfg w) = Raise x.
Proof.
  intros Hr Hs Hpre He.
  rewrite invoke_agent_run, invoke_agent_try_run, Hr, Hs.
  destruct (for_event_stops pre e rest x Hpre He
              (locals_at_loop (clock w (ticks w)) r) (tick w)) as [w' ->].
  reflexivity.
Qed.

(** X2: a chunk event whose dict has no ['bytes'] key, once reached, ends
    the call with [KeyError('bytes')], whatever follows it. *)
Theorem chunk_without_bytes_raises_key_error w cfg r pre e c rest :
  agent_runtime w (request_of q agent alias session et es) = Return r ->
  completion r = yields pre (Yield e rest) ->
  Forall handled pre ->
  e !! "chunk" = Some (PDict c) -> c !! "bytes" = None ->
  fst (invoke_agent q agent alias session et es cfg w) = Raise (KeyError "bytes").
Proof.
  intros Hr Hs Hpre Hc Hb. eapply invoke_agent_stops; try eassumption.
  intros f w0. eapply loop_body_missing_bytes; eassumption.
Qed.

(** X3: a chunk event whose bytes are not valid UTF-8, once reached, ends
    the call with [UnicodeDecodeError], even when later chunk events would
    have replaced its text. *)
Theorem undecodable_chunk_raises w cfg r pre e c bs rest :
  agent_runtime w (request_of q agent alias session et es) = Return r ->
  completion r = yields pre (Yield e rest) ->
  Forall handled pre ->
  e !! "chunk" = Some (PDict c) -> c !! "bytes" = Some (PBytes bs) ->
  utf8_decode bs = None ->
  fst (invoke_agent q agent alias session et es cfg w)
  = Raise (UnicodeDecodeError bs).
Proof.
  intros Hr Hs Hpre Hc Hb Hd. eapply invoke_agent_stops; try eassumption.
  intros f w0. eapply loop_body_undecodable; eassumption.
Qed.

(** X4: a trace event whose ['trace'] is not a dict, once reached, ends
    the call with [TypeError]: the [start_trace_time] cannot be stored. *)
Theorem trace_that_is_no_dict_raises w cfg r pre e t rest :
  agent_runtime w (request_of q agent alias session et es) = Return r ->
  completion r = yields pre (Yield e rest) ->
  Forall handled pre ->
  contains "chunk" e = false -> e !! "trace" = Some t ->
  (forall d, t <> PDict d) ->
  fst (invoke_agent q agent alias session et es cfg w)
  = Raise (TypeError "item assignment").
Proof.
  intros Hr Hs Hpre Hc Ht Hd. eapply invoke_agent_stops; try eassumption.
  intros f w0. eexists. eapply loop_body_trace_not_dict; eassumption.
Qed.

(** X5: whatever its outcome, a call writes no record to the sink and
    draws no identifier itself, and it reads the clock at least once. *)
Theorem invoke_agent_logs_nothing w cfg :
  let w' := snd (invoke_agent q agent alias session et es cfg w) in
  sink w' = sink w /\ minted w' = minted w /\ ticks w < ticks w'.
Proof.
  cbv zeta. rewrite invoke_agent_run, invoke_agent_try_run.
  destruct (agent_runtime w _) as [r|x]; [|simpl; auto].
  pose proof (for_event_world (completion r)
                (locals_at_loop (clock w (ticks w)) r) (tick w)) as Hw.
  destruct (for_event _ _ (tick w)) as [[f|x] w1]; simpl in Hw;
    destruct Hw as (_ & _ & _ & Hm & Hs & Ht); simpl in *.
  - destruct (end_event_received f); [destruct (since _ _)|]; simpl;
      repeat split; auto; lia.
  - repeat split; auto; lia.
Qed.

(** X6: a call that returns has read the clock three times (at the
    start, at the first chunk event, at the end) and once more for each
    trace event of the stream. *)
Theorem clock_reads_of_a_call_that_returns w cfg v w' :
  invoke_agent q agent alias session et es cfg w = (Return v, w') ->
  exists r l,
    agent_runtime w (request_of q agent alias session et es) = Return r /\
    completion r = events l /\
    ticks w' = ticks w + 3 + length (List.filter is_trace l).
Proof.
  intros H. rewrite invoke_agent_run in H.
  destruct (invoke_agent_try q agent alias session et es w) as [[f'|x] w0] eqn:Htry;
    [|discriminate].
  injection H as _ <-.
  destruct (invoke_agent_try_returns _ _ _ _ _ _ _ _ _ Htry)
    as (r & l & f & w1 & d & Hr & Hl & Hloop & He & _ & _ & ->).
  exists r, l. split; [exact Hr|]. split; [exact Hl|].
  pose proof (for_event_ticks_first l (locals_at_loop (clock w (ticks w)) r)
                _ _ _ eq_refl Hloop) as Hticks.
  assert (Hex : existsb is_chunk l = true).
  { destruct (for_event_answer _ _ _ _ _ Hloop)
      as [(_ & _ & He')|(l1 & e & l2 & c & bs & s & -> & _ & Hc & _)].
    - rewrite He in He'. discriminate.
    - rewrite existsb_app. simpl. unfold is_chunk at 2, contains.
      rewrite Hc. simpl. apply orb_true_r. }
  rewrite Hex in Hticks. simpl in *. lia.
Qed.

(** X7: the traces returned carry as [start_trace_time] readings of the
    clock taken after the start time and before the final reading, each
    trace a later reading than the traces before it. *)
Theorem trace_stamps_in_stream_order w cfg v w' :
  invoke_agent q agent alias session et es cfg w = (Return v, w') ->
  exists meta answer traces idxs,
    v = PTuple [PDict meta; answer; PList traces] /\
    Forall2 (stamped_at (clock w)) traces idxs /\
    StronglySorted lt idxs /\
    Forall (fun i => ticks w < i < Nat.pred (ticks w')) idxs.
Proof.
  intros H. rewrite invoke_agent_run in H.
  destruct (invoke_agent_try q agent alias session et es w) as [[f'|x] w0] eqn:Htry;
    [|discriminate].
  injection H as <- <-.
  destruct (invoke_agent_try_returns _ _ _ _ _ _ _ _ _ Htry)
    as (r & l & f & w1 & d & _ & _ & Hloop & _ & _ & -> & ->).
  destruct (for_event_stamps _ _ _ _ _ Hloop)
    as (ts & idxs & Hts & Hst & Hsorted & Hin).
  simpl in *. rewrite Hts. simpl.
  do 3 eexists. exists idxs. split; [reflexivity|].
  split; [exact Hst|]. split; [exact Hsorted|].
  eapply Forall_impl; [exact Hin|]. simpl. intros; lia.
Qed.

(** X8: the answer returned is Unicode text: each of its code points is
    below U+110000 and is no surrogate. *)
Theorem answer_is_unicode_text w cfg v w' :
  invoke_agent q agent alias session et es cfg w = (Return v, w') ->
  exists meta answer traces,
    v = PTuple [PDict meta; PStr answer; PList traces] /\
    Forall scalar_value answer.
Proof.
  intros H. rewrite invoke_agent_run in H.
  destruct (invoke_agent_try q agent alias session et es w) as [[f'|x] w0] eqn:Htry;
    [|discriminate].
  injection H as <- <-.
  destruct (invoke_agent_try_returns _ _ _ _ _ _ _ _ _ Htry)
    as (r & l & f & w1 & d & _ & _ & Hloop & He & _ & -> & _).
  destruct (for_event_answer _ _ _ _ _ Hloop)
    as [(_ & _ & He')|(l1 & e & l2 & c & bs & s & _ & _ & _ & _ & Hs & Ha & _)].
  - rewrite He in He'. discriminate.
  - simpl. rewrite Ha. simpl. do 3 eexists. split; [reflexivity|].
    eapply utf8_decode_scalar_values; [reflexivity|exact Hs].
Qed.

(** X9: a chunk event whose bytes stop on a lead byte, as when a chunk
    boundary cuts a character in two, ends the call with
    [UnicodeDecodeError]: each chunk is decoded on its own. *)
Theorem chunk_cut_inside_a_character_raises w cfg r pre e c bs b rest :
  agent_runtime w (request_of q agent alias session et es) = Return r ->
  completion r = yields pre (Yield e rest) ->
  Forall handled pre ->
  e !! "chunk" = Some (PDict c) -> c !! "bytes" = Some (PBytes (bs ++ [b])) ->
  (192 <= Byte.to_N b)%N ->
  fst (invoke_agent q agent alias session et es cfg w)
  = Raise (UnicodeDecodeError (bs ++ [b])).
Proof.
  intros Hr Hs Hpre Hc Hb Hlead. eapply invoke_agent_stops; try eassumption.
  intros f w0. eapply loop_body_undecodable; try eassumption.
  eapply utf8_decode_cut; [reflexivity|exact Hlead].
Qed.

End Outcome.

(** ** Concrete runs of these properties *)

Lemma chunk_without_bytes_raises_key_error_witness :
  fst (invoke_agent Q K K K (PBool true) (PBool false) PNone
         (sample_world (Return (sample_response
            (yields [chunk_event "a"]
               (Yield chunk_without_bytes (events [chunk_event "b"])))))))
  = Raise (KeyError "bytes").
Proof.
  apply (chunk_without_bytes_raises_key_error
           Q K K K (PBool true) (PBool false)
           (sample_world (Return (sample_response
              (yields [chunk_event "a"]
                 (Yield chunk_without_bytes (events [chunk_event "b"]))))))
           PNone
           (sample_response
              (yields [chunk_event "a"]
                 (Yield chunk_without_bytes (events [chunk_event "b"]))))
           [chunk_event "a"] chunk_without_bytes {[ "attribution" := PNone ]}
           (events [chunk_event "b"]));
    try reflexivity.
  constructor; [|constructor].
  left. do 3 eexists. repeat split; reflexivity.
Defined.

Lemma undecodable_chunk_raises_witness :
  fst (invoke_agent Q K K K (PBool true) (PBool false) PNone
         (sample_world (Return (sample_response
            (yields [trace_event "s"]
               (Yield (chunk_of_bytes [Byte.xff]) (events [chunk_event "b"])))))))
  = Raise (UnicodeDecodeError [Byte.xff]).
Proof.
  apply (undecodable_chunk_raises
           Q K K K (PBool true) (PBool false)
           (sample_world (Return (sample_response
              (yields [trace_event "s"]
                 (Yield (chunk_of_bytes [Byte.xff]) (events [chunk_event "b"]))))))
           PNone
           (sample_response
              (yields [trace_event "s"]
                 (Yield (chunk_of_bytes [Byte.xff]) (events [chunk_event "b"]))))
           [trace_event "s"] (chunk_of_bytes [Byte.xff])
           {[ "bytes" := PBytes [Byte.xff] ]} [Byte.xff]
           (events [chunk_event "b"]));
    try reflexivity.
  constructor; [|constructor].
  right. split; [reflexivity|]. eexists. reflexivity.
Defined.

Lemma trace_that_is_no_dict_raises_witness :
  fst (invoke_agent Q K K K (PBool true) (PBool false) PNone
         (sample_world (Return (sample_response
            (yields [chunk_event "a"]
               (Yield (trace_of (PStr (str "oops"))) StopIteration))))))
  = Raise (TypeError "item assignment").
Proof.
  apply (trace_that_is_no_dict_raises
           Q K K K (PBool true) (PBool false)
           (sample_world (Return (sample_response
              (yields [chunk_event "a"]
                 (Yield (trace_of (PStr (str "oops"))) StopIteration)))))
           PNone
           (sample_response
              (yields [chunk_event "a"]
                 (Yield (trace_of (PStr (str "oops"))) StopIteration)))
           [chunk_event "a"] (trace_of (PStr (str "oops"))) (PStr (str "oops"))
           StopIteration);
    try reflexivity.
  - constructor; [|constructor].
    left. do 3 eexists. repeat split; reflexivity.
  - intros d. discriminate.
Defined.

Lemma chunk_cut_inside_a_character_raises_witness :
  fst (invoke_agent Q K K K (PBool true) (PBool false) PNone
         (sample_world (Return (sample_response
            (yields []
               (Yield (chunk_of_bytes
                         (String.list_byte_of_string "caf" ++ [Byte.xc3]))
                  (events [chunk_of_bytes [Byte.xa9]])))))))
  = Raise (UnicodeDecodeError (String.list_byte_of_string "caf" ++ [Byte.xc3])).
Proof.
  apply (chunk_cut_inside_a_character_raises
           Q K K K (PBool true) (PBool false)
           (sample_world (Return (sample_response
              (yields []
                 (Yield (chunk_of_bytes
                           (String.list_byte_of_string "caf" ++ [Byte.xc3]))
                    (events [chunk_of_bytes [Byte.xa9]]))))))
           PNone
           (sample_response
              (yields []
                 (Yield (chunk_of_bytes
                           (String.list_byte_of_string "caf" ++ [Byte.xc3]))
                    (events [chunk_of_bytes [Byte.xa9]]))))
           [] (chunk_of_bytes (String.list_byte_of_string "caf" ++ [Byte.xc3]))
           {[ "bytes" := PBytes (String.list_byte_of_string "caf" ++ [Byte.xc3]) ]}
           (String.list_byte_of_string "caf") Byte.xc3
           (events [chunk_of_bytes [Byte.xa9]]));
    try reflexivity.
  - constructor.
  - vm_compute. discriminate.
Defined.

Lemma clock_reads_of_a_call_that_returns_witness :
  exists v w',
    invoke_agent Q K K K (PBool true) (PBool false) PNone hello_world
    = (Return v, w') /\
    exists r l,
      agent_runtime hello_world
        (request_of Q K K K (PBool true) (PBool false)) = Return r /\
      completion r = events l /\
      ticks w' = ticks hello_world + 3 + length (List.filter is_trace l).
Proof.
  do 2 eexists. split.
  - vm_compute. reflexivity.
  - eapply (clock_reads_of_a_call_that_returns
              Q K K K (PBool true) (PBool false) hello_world PNone).
    vm_compute. reflexivity.
Defined.

Lemma trace_stamps_in_stream_order_witness :
  exists v w',
    invoke_agent Q K K K (PBool true) (PBool false) PNone hello_world
    = (Return v, w') /\
    exists meta answer traces idxs,
      v = PTuple [PDict meta; answer; PList traces] /\
      Forall2 (stamped_at (clock hello_world)) traces idxs /\
      StronglySorted lt idxs /\
      Forall (fun i => ticks hello_world < i < Nat.pred (ticks w')) idxs.
Proof.
  do 2 eexists. split.
  - vm_compute. reflexivity.
  - eapply (trace_stamps_in_stream_order
              Q K K K (PBool true) (PBool false) hello_world PNone).
    vm_compute. reflexivity.
Defined.

Lemma answer_is_unicode_text_witness :
  exists v w',
    invoke_agent Q K K K (PBool true) (PBool false) PNone hello_world
    = (Return v, w') /\
    exists meta answer traces,
      v = PTuple [PDict meta; PStr answer; PList traces] /\
      Forall scalar_value answer.
Proof.
  do 2 eexists. split.
  - vm_compute. reflexivity.
  - eapply (answer_is_unicode_text
              Q K K K (PBool true) (PBool false) hello_world PNone).
    vm_compute. reflexivity.
Defined.
